(** * Workspace preparation of the agent executor

    A shallow embedding of [executor/app/core/workspace.py]
    (class [WorkspaceManager]) and the properties of its workspace
    preparation: path derivation, credential brokering for git, the
    convergence of the on-disk repository, the exclude file, the inputs link,
    the persistence link and the teardown.

    Python values are modelled as follows.
    - [str] is [string]; the characters are the code points below 256.
    - [pathlib.Path] (POSIX flavour, absolute) is the list of its parts.
    - [dict[str, str]] is [gmap string string].
    - The file system is a finite map from paths to nodes, together with
      the set of directories the process may not modify.
    - Methods that touch the manager or the file system are computations in
      a state-and-exception monad; a raised exception keeps the effects
      performed before it, as in Python. *)

From Stdlib Require Import Ascii String List Bool Arith Lia.
From stdpp Require Import base option list gmap strings.


(** ** Python [str] methods used by the module *)
Module Py.

(** [c in s] for a single character. *)
Fixpoint has_char (c : ascii) (s : string) : bool :=
  match s with
  | EmptyString => false
  | String a s' => bool_decide (a = c) || has_char c s'
  end.

(** [s.split(c, 1)[0]]: the part of [s] before the first [c]. *)
Fixpoint before (c : ascii) (s : string) : string :=
  match s with
  | EmptyString => EmptyString
  | String a s' => if decide (a = c) then EmptyString else String a (before c s')
  end.

(** [s.split(c)] for a one-character separator. *)
Fixpoint split (c : ascii) (s : string) : list string :=
  match s with
  | EmptyString => [EmptyString]
  | String a s' =>
      if decide (a = c) then EmptyString :: split c s'
      else match split c s' with
           | h :: t => String a h :: t
           | [] => [String a EmptyString]
           end
  end.

(** [s.rstrip(c)] for a one-character set. *)
Fixpoint rstrip_char (c : ascii) (s : string) : string :=
  match s with
  | EmptyString => EmptyString
  | String a s' =>
      let r := rstrip_char c s' in
      if decide (a = c) then (if decide (r = EmptyString) then EmptyString else String a r)
      else String a r
  end.

(** [s.endswith(suf)]. *)
Fixpoint endswith (suf s : string) : bool :=
  bool_decide (s = suf) ||
  match s with
  | EmptyString => false
  | String _ s' => endswith suf s'
  end.

(** [s.startswith(pre)]. *)
Fixpoint startswith (pre s : string) : bool :=
  match pre, s with
  | EmptyString, _ => true
  | String a pre', String b s' => bool_decide (a = b) && startswith pre' s'
  | String _ _, EmptyString => false
  end.

(** [s[:-n]] for [n > 0]. *)
Definition drop_last (n : nat) (s : string) : string :=
  String.substring 0 (String.length s - n) s.

(** [s[:n]]. *)
Definition take (n : nat) (s : string) : string := String.substring 0 n s.

(** [sep.join(l)]. *)
Fixpoint join (sep : string) (l : list string) : string :=
  match l with
  | [] => EmptyString
  | [x] => x
  | x :: l' => x +:+ sep +:+ join sep l'
  end.

(** [s.replace(a, b)] for single characters. *)
Fixpoint replace_char (a b : ascii) (s : string) : string :=
  match s with
  | EmptyString => EmptyString
  | String c s' => String (if decide (c = a) then b else c) (replace_char a b s')
  end.

(** [c.isspace()] on the code points below 256. *)
Definition isspace (c : ascii) : bool :=
  match c with
  | "009" | "010" | "011" | "012" | "013"
  | "028" | "029" | "030" | "031" | " " | "133" | "160" => true
  | _ => false
  end%char.

(** [s.lstrip()], [s.rstrip()], [s.strip()]. *)
Fixpoint lstrip (s : string) : string :=
  match s with
  | EmptyString => EmptyString
  | String a s' => if isspace a then lstrip s' else s
  end.

Fixpoint rstrip (s : string) : string :=
  match s with
  | EmptyString => EmptyString
  | String a s' =>
      let r := rstrip s' in
      if isspace a then (if decide (r = EmptyString) then EmptyString else String a r)
      else String a r
  end.

Definition strip (s : string) : string := rstrip (lstrip s).

(** A line boundary of [str.splitlines], apart from the pair CR LF. *)
Definition islinebreak (c : ascii) : bool :=
  match c with
  | "010" | "011" | "012" | "013" | "028" | "029" | "030" | "133" => true
  | _ => false
  end%char.

Definition CR : ascii := "013"%char.
Definition NL : ascii := "010"%char.

(** Put [a] in front of the first line of [l]. *)
Definition cons_line (a : ascii) (l : list string) : list string :=
  match l with
  | h :: t => String a h :: t
  | [] => [String a EmptyString]
  end.

(** [s.splitlines()]: CR LF counts as one boundary and a final boundary
    opens no empty line. *)
Fixpoint splitlines (s : string) : list string :=
  match s with
  | EmptyString => []
  | String a s' =>
      if islinebreak a then
        EmptyString ::
          match s' with
          | String b s'' =>
              if bool_decide (a = CR) && bool_decide (b = NL)
              then splitlines s'' else splitlines s'
          | EmptyString => []
          end
      else cons_line a (splitlines s')
  end.

(** Every character of [s] passes [f]. *)
Fixpoint all_chars (f : ascii → bool) (s : string) : bool :=
  match s with
  | EmptyString => true
  | String a s' => f a && all_chars f s'
  end.

(** [c.lower()] on the code points below 256. *)
Definition lower_char (c : ascii) : ascii :=
  let n := nat_of_ascii c in
  if ((65 <=? n) && (n <=? 90)) ||
     ((192 <=? n) && (n <=? 222) && negb (n =? 215))
  then ascii_of_nat (n + 32) else c.

Fixpoint lower (s : string) : string :=
  match s with
  | EmptyString => EmptyString
  | String a s' => String (lower_char a) (lower s')
  end.

(** Truthiness of an optional string: [None] and [EmptyString] are false. *)
Definition truthy (o : option string) : bool :=
  match o with
  | Some s => negb (bool_decide (s = EmptyString))
  | None => false
  end.

End Py.

(** ** Paths *)

(** An absolute POSIX path, as the list of its parts below the root. *)
Definition path := list string.

(** The parts [pathlib] keeps of a path segment: empty parts and [.] are
    dropped, [..] is kept. *)
Definition parse_parts (s : string) : list string :=
  filter (λ x, x ≠ EmptyString ∧ x ≠ ".") (Py.split "/" s).

(** [p / s] for a string [s]: an absolute segment replaces [p]. *)
Definition path_join (p : path) (s : string) : path :=
  if Py.startswith "/" s then parse_parts s else p ++ parse_parts s.

(** [str(p)]. *)
Definition path_str (p : path) : string := "/" +:+ Py.join "/" p.

(** A name that, joined to a directory, denotes an entry of that very
    directory. *)
Definition is_child_name (n : string) : bool :=
  negb (bool_decide (n = EmptyString)) && negb (bool_decide (n = ".")) &&
  negb (bool_decide (n = "..")) && negb (Py.has_char "/" n).

(** [p] is an entry directly below [root]: neither [root] itself nor a path
    that leaves it. *)
Definition strict_child (root p : path) : Prop :=
  ∃ n, p = root ++ [n] ∧ is_child_name n = true.

(** ** Path derivation *)

(** The directory name [_derive_repo_path] computes from the URL. *)
Definition derive_repo_name (repo_url : string) : string :=
  let clean := Py.rstrip_char "/" (Py.before "#" (Py.before "?" repo_url)) in
  let name := if bool_decide (clean = EmptyString) then "repo" else List.last (Py.split "/" clean) EmptyString in
  let name := if Py.endswith ".git" name then Py.drop_last (String.length ".git") name else name in
  if bool_decide (name = EmptyString) || bool_decide (name = ".") || bool_decide (name = "..")
  then "repo" else name.

(** [WorkspaceManager._derive_repo_path]. *)
Definition derive_repo_path (root_path : path) (repo_url : string) : path :=
  path_join root_path (derive_repo_name repo_url).


(** ** Exceptions *)

Inductive exn_class :=
  | FileNotFoundError | FileExistsError | NotADirectoryError
  | IsADirectoryError | PermissionError | OSError
  | ValueError | GitCommandError | GitError | RuntimeError.

(** A raised exception: its class and [str(exc)]. *)
Record exn := Exn { exn_cls : exn_class; exn_msg : string }.

Global Instance exn_class_eq_dec : EqDecision exn_class.
Proof. solve_decision. Defined.

(** [isinstance(exc, OSError)]. *)
Definition is_OSError (e : exn) : bool :=
  match exn_cls e with
  | FileNotFoundError | FileExistsError | NotADirectoryError
  | IsADirectoryError | PermissionError | OSError => true
  | _ => false
  end.

(** [isinstance(exc, (GitCommandError, GitError, OSError))]. *)
Definition is_git_or_os_error (e : exn) : bool :=
  match exn_cls e with
  | GitCommandError | GitError => true
  | _ => is_OSError e
  end.

(** [isinstance(exc, Exception)]: every modelled class derives from it. *)
Definition is_Exception (e : exn) : bool := true.

Definition os_error (c : exn_class) (p : path) : exn :=
  Exn c ("[Errno] '" +:+ path_str p +:+ "'").

(** ** File system *)

Inductive node :=
  | Dir
  | File (content : string) (mode : N)
  | Symlink (target : path).

Global Instance node_eq_dec : EqDecision node.
Proof. solve_decision. Defined.

(** [fs_nodes] holds the entries below the root directory, keyed by their
    physical path; [fs_readonly] is the set of directories in which the
    process may neither create nor remove an entry. *)
Record filesys := FileSys { fs_nodes : gmap path node; fs_readonly : gset path }.

Definition S_IRUSR : N := 256.
Definition S_IWUSR : N := 128.
Definition S_IXUSR : N := 64.

(** [p.parent]; the root is its own parent. *)
Definition parent (p : path) : path := removelast p.

(** [os.lstat]: the entry at [p] itself. The root always is a directory. *)
Definition lstat (fs : filesys) (p : path) : option node :=
  match p with
  | [] => Some Dir
  | _ => fs_nodes fs !! p
  end.

(** Follow the symbolic links at [p] up to the first path that is not one;
    [None] after more links than the kernel follows. *)
Fixpoint resolve_go (fuel : nat) (fs : filesys) (p : path) : option path :=
  match lstat fs p with
  | Some (Symlink t) =>
      match fuel with
      | O => None
      | S fuel' => resolve_go fuel' fs t
      end
  | _ => Some p
  end.

Definition resolve := resolve_go 40.

(** [os.stat]: the entry [p] leads to. *)
Definition stat (fs : filesys) (p : path) : option node :=
  match resolve fs p with
  | Some q => lstat fs q
  | None => None
  end.

(** [p.exists()], [p.is_symlink()], [p.is_dir()]. *)
Definition path_exists (fs : filesys) (p : path) : bool := bool_decide (is_Some (stat fs p)).

Definition path_is_symlink (fs : filesys) (p : path) : bool :=
  match lstat fs p with
  | Some (Symlink _) => true
  | _ => false
  end.

Definition path_is_dir (fs : filesys) (p : path) : bool :=
  match stat fs p with
  | Some Dir => true
  | _ => false
  end.

Definition set_node (p : path) (n : node) (fs : filesys) : filesys :=
  FileSys (<[p := n]> (fs_nodes fs)) (fs_readonly fs).

(** What creating a new entry [p] in its directory fails with, if it does. *)
Definition create_error (fs : filesys) (p : path) : option exn :=
  match lstat fs (parent p) with
  | None => Some (os_error FileNotFoundError p)
  | Some Dir =>
      match lstat fs p with
      | Some _ => Some (os_error FileExistsError p)
      | None =>
          if decide (parent p ∈ fs_readonly fs)
          then Some (os_error PermissionError p) else None
      end
  | Some _ => Some (os_error NotADirectoryError p)
  end.

(** [os.mkdir(p)]: the new directory belongs to the process. *)
Definition os_mkdir (p : path) (fs : filesys) : exn + filesys :=
  match create_error fs p with
  | Some e => inl e
  | None => inr (FileSys (<[p := Dir]> (fs_nodes fs)) (fs_readonly fs ∖ {[p]}))
  end.

(** [Path.mkdir(parents=..., exist_ok=...)]. The recursion on the parent
    ends at the root, so [length p] steps of fuel are enough. *)
Fixpoint path_mkdir_go (fuel : nat) (parents exist_ok : bool) (p : path)
    (fs : filesys) : filesys * (exn + unit) :=
  match os_mkdir p fs with
  | inr fs' => (fs', inr tt)
  | inl e =>
      if decide (exn_cls e = FileNotFoundError) then
        if negb parents || bool_decide (parent p = p) then (fs, inl e)
        else
          match fuel with
          | O => (fs, inl e)
          | S fuel' =>
              match path_mkdir_go fuel' true true (parent p) fs with
              | (fs1, inl e1) => (fs1, inl e1)
              | (fs1, inr _) => path_mkdir_go fuel' false exist_ok p fs1
              end
          end
      else if negb exist_ok || negb (path_is_dir fs p) then (fs, inl e)
      else (fs, inr tt)
  end.

Definition path_mkdir (parents exist_ok : bool) (p : path) (fs : filesys)
    : filesys * (exn + unit) :=
  path_mkdir_go (length p) parents exist_ok p fs.

(** [Path.unlink(missing_ok=...)]. *)
Definition path_unlink (missing_ok : bool) (p : path) (fs : filesys) : exn + filesys :=
  match lstat fs p with
  | None => if missing_ok then inr fs else inl (os_error FileNotFoundError p)
  | Some Dir => inl (os_error IsADirectoryError p)
  | Some _ =>
      if decide (parent p ∈ fs_readonly fs) then inl (os_error PermissionError p)
      else inr (FileSys (delete p (fs_nodes fs)) (fs_readonly fs))
  end.

(** Some entry strictly below [p] lies in a directory that may not be
    modified. *)
Definition blocked_below (fs : filesys) (p : path) : bool :=
  bool_decide (map_Exists (λ k _, p `prefix_of` parent k ∧ parent k ∈ fs_readonly fs) (fs_nodes fs)).

(** [shutil.rmtree(p)]. A removal that fails on a protected directory is
    modelled as removing nothing. *)
Definition shutil_rmtree (p : path) (fs : filesys) : exn + filesys :=
  match lstat fs p with
  | None => inl (os_error FileNotFoundError p)
  | Some (Symlink _) => inl (Exn OSError "Cannot call rmtree on a symbolic link")
  | Some (File _ _) => inl (os_error NotADirectoryError p)
  | Some Dir =>
      if bool_decide (parent p ∈ fs_readonly fs) || blocked_below fs p
      then inl (os_error PermissionError p)
      else inr (FileSys (filter (λ kv, ¬ p `prefix_of` kv.1) (fs_nodes fs)) (fs_readonly fs))
  end.

(** [p.symlink_to(target)]. *)
Definition path_symlink_to (p target : path) (fs : filesys) : exn + filesys :=
  match create_error fs p with
  | Some e => inl e
  | None => inr (set_node p (Symlink target) fs)
  end.

(** Text files are read with universal newlines: CR LF and CR become LF. *)
Fixpoint universal_newlines (s : string) : string :=
  match s with
  | EmptyString => EmptyString
  | String a s' =>
      if bool_decide (a = Py.CR) then
        String Py.NL
          match s' with
          | String b s'' =>
              if bool_decide (b = Py.NL) then universal_newlines s''
              else universal_newlines s'
          | EmptyString => EmptyString
          end
      else String a (universal_newlines s')
  end.

(** [p.read_text()]. *)
Definition path_read_text (p : path) (fs : filesys) : exn + string :=
  match resolve fs p with
  | None => inl (os_error OSError p)
  | Some q =>
      match lstat fs q with
      | None => inl (os_error FileNotFoundError p)
      | Some Dir => inl (os_error IsADirectoryError p)
      | Some (File c m) =>
          if N.testbit m 8 then inr (universal_newlines c)
          else inl (os_error PermissionError p)
      | Some (Symlink _) => inl (os_error OSError p)
      end
  end.

(** [p.write_text(s)]: the file a link leads to is truncated and written; a
    missing file is created with mode [0o644]. *)
Definition path_write_text (p : path) (s : string) (fs : filesys) : exn + filesys :=
  match resolve fs p with
  | None => inl (os_error OSError p)
  | Some q =>
      match lstat fs q with
      | Some Dir => inl (os_error IsADirectoryError p)
      | Some (File _ m) =>
          if N.testbit m 7 then inr (set_node q (File s m) fs)
          else inl (os_error PermissionError p)
      | Some (Symlink _) => inl (os_error OSError p)
      | None =>
          match create_error fs q with
          | Some e => inl e
          | None => inr (set_node q (File s 420) fs)
          end
      end
  end.

(** [p.chmod(mode)]; the modes of directories are not modelled. *)
Definition path_chmod (p : path) (mode : N) (fs : filesys) : exn + filesys :=
  match resolve fs p with
  | None => inl (os_error OSError p)
  | Some q =>
      match lstat fs q with
      | Some (File c _) => inr (set_node q (File c mode) fs)
      | Some _ => inr fs
      | None => inl (os_error FileNotFoundError p)
      end
  end.

(** [tempfile.mkstemp(prefix=pre)] in directory [dir]: the first candidate
    name that is free is created exclusively with mode [0o600]. *)
Fixpoint mkstemp (dir : path) (pre : string) (names : list string)
    (fs : filesys) : exn + (path * filesys) :=
  match names with
  | [] => inl (Exn FileExistsError "No usable temporary file name found")
  | n :: names' =>
      let p := dir ++ [pre +:+ n] in
      match create_error fs p with
      | None => inr (p, set_node p (File EmptyString 384) fs)
      | Some e =>
          if decide (exn_cls e = FileExistsError) then mkstemp dir pre names' fs
          else inl e
      end
  end.

(** ** The manager's state and its computations *)

(** A call the manager makes that acts on the world, in program order. *)
Inductive event :=
  | EvMkdir (p : path)
  | EvUnlink (p : path)
  | EvRmtree (p : path)
  | EvSymlink (p target : path)
  | EvMkstemp (pre : string)
  | EvWrite (p : path) (content : string)
  | EvChmod (p : path) (mode : N)
  | EvClone (url : string) (p : path) (branch : option string) (env : gmap string string)
  | EvInit (p : path)
  | EvFetch (remote branch : string) (cwd : path) (env : gmap string string)
  | EvCheckout (branch : string) (cwd : path)
  | EvWarning (msg : string).

(** The calls into the git layer. *)
Definition is_git_call (e : event) : bool :=
  match e with
  | EvClone _ _ _ _ | EvInit _ | EvFetch _ _ _ _ | EvCheckout _ _ => true
  | _ => false
  end.

Definition git_calls (t : list event) : list event := List.filter is_git_call t.

(** The mutable part of the world: the file system, the two attributes of
    the manager that change ([work_path], [_git_askpass_path]) and the calls
    made so far. *)
Record state := State {
  st_fs : filesys;
  st_work_path : path;
  st_askpass : option path;
  st_trace : list event;
}.

Inductive outcome (A : Type) :=
  | Ok (a : A)
  | Raise (e : exn).
Arguments Ok {A} a.
Arguments Raise {A} e.

Definition M (A : Type) : Type := state → state * outcome A.

Definition ret {A} (a : A) : M A := λ st, (st, Ok a).

Definition raise {A} (e : exn) : M A := λ st, (st, Raise e).

Definition bind {A B} (m : M A) (k : A → M B) : M B :=
  λ st, match m st with
        | (st', Ok a) => k a st'
        | (st', Raise e) => (st', Raise e)
        end.

(** [try: m  except <classes>: h]; other exceptions pass. *)
Definition try_except {A} (m : M A) (catches : exn → bool) (h : exn → M A) : M A :=
  λ st, match m st with
        | (st', Raise e) => if catches e then h e st' else (st', Raise e)
        | r => r
        end.

Declare Scope mgr_scope.
Delimit Scope mgr_scope with mgr.
Notation "'let!' x ':=' m 'in' k" := (bind m (λ x, k))
  (at level 20, x name, m at level 100, k at level 200) : mgr_scope.
Notation "m >> k" := (bind m (λ _, k))
  (at level 100, k at level 200, right associativity) : mgr_scope.
Local Open Scope mgr_scope.

Definition with_fs (f : filesys) (st : state) : state :=
  State f (st_work_path st) (st_askpass st) (st_trace st).

Definition log (e : event) : M unit :=
  λ st, (State (st_fs st) (st_work_path st) (st_askpass st) (st_trace st ++ [e]), Ok tt).

(** Read the file system. *)
Definition query {A} (f : filesys → A) : M A := λ st, (st, Ok (f (st_fs st))).

(** A call that replaces the file system or fails without effect. *)
Definition update (f : filesys → exn + filesys) : M unit :=
  λ st, match f (st_fs st) with
        | inr fs' => (with_fs fs' st, Ok tt)
        | inl e => (st, Raise e)
        end.

(** A call that may fail after part of its effect. *)
Definition perform {A} (f : filesys → filesys * (exn + A)) : M A :=
  λ st, match f (st_fs st) with
        | (fs', inr a) => (with_fs fs' st, Ok a)
        | (fs', inl e) => (with_fs fs' st, Raise e)
        end.

Definition get_askpass : M (option path) := λ st, (st, Ok (st_askpass st)).

Definition set_askpass (o : option path) : M unit :=
  λ st, (State (st_fs st) (st_work_path st) o (st_trace st), Ok tt).

Definition set_work_path (p : path) : M unit :=
  λ st, (State (st_fs st) p (st_askpass st) (st_trace st), Ok tt).

Definition mkdir (parents exist_ok : bool) (p : path) : M unit :=
  log (EvMkdir p) >> perform (path_mkdir parents exist_ok p).

Definition unlink (missing_ok : bool) (p : path) : M unit :=
  log (EvUnlink p) >> update (path_unlink missing_ok p).

Definition rmtree (p : path) : M unit :=
  log (EvRmtree p) >> update (shutil_rmtree p).

Definition symlink_to (p target : path) : M unit :=
  log (EvSymlink p target) >> update (path_symlink_to p target).

Definition read_text (p : path) : M string :=
  λ st, match path_read_text p (st_fs st) with
        | inr s => (st, Ok s)
        | inl e => (st, Raise e)
        end.

Definition write_text (p : path) (s : string) : M unit :=
  log (EvWrite p s) >> update (path_write_text p s).

Definition chmod (p : path) (mode : N) : M unit :=
  log (EvChmod p mode) >> update (path_chmod p mode).

Definition warning (msg : string) : M unit := log (EvWarning msg).

(** [tempfile.mkstemp(prefix=pre)] with the directory and the candidate
    names of the platform; the descriptor is closed at once. *)
Definition make_temp (dir : path) (pre : string) (names : list string) : M path :=
  log (EvMkstemp pre) >>
  λ st, match mkstemp dir pre names (st_fs st) with
        | inr (p, fs') => (with_fs fs' st, Ok p)
        | inl e => (st, Raise e)
        end.

(** ** What the module takes from its surroundings *)

(** The git layer [app.utils.git.operations]: each operation acts on the
    file system and may raise. *)
Record git_layer := GitLayer {
  is_repository : filesys → path → bool;
  clone : string → path → option string → gmap string string → filesys → filesys * (exn + path);
  init_repository : path → filesys → filesys * (exn + unit);
  checkout : string → path → filesys → filesys * (exn + unit);
  fetch : string → string → path → gmap string string → filesys → filesys * (exn + unit);
}.

(** The process environment and the library functions whose result it
    decides: [urlparse] gives the scheme and the network location, or raises;
    [home_dir] is [Path.home()]; [temp_dir] and [temp_names] are the
    directory and the candidate names of [tempfile]; [workspace_git_ignore]
    is the value of [WORKSPACE_GIT_IGNORE], empty when it is unset. *)
Record platform := Platform {
  urlparse : string → exn + (string * string);
  home_dir : path;
  temp_dir : path;
  temp_names : list string;
  workspace_git_ignore : string;
}.

(** [TaskConfig], as far as the manager reads it. *)
Record TaskConfig := {
  repo_url : option string;
  git_branch : option string;
  git_token : option string;
}.

(** The attributes [__init__] fixes. *)
Record manager := Manager {
  root_path : path;
  claude_config_path : path;
  inputs_root : path;
  persistent_claude_data : path;
  system_claude_home : path;
}.

Definition DEFAULT_GIT_EXCLUDES : list string :=
  [ ".git/"; ".hg/"; ".svn/";
    ".DS_Store"; "__pycache__/"; ".pytest_cache/"; ".mypy_cache/"; ".ruff_cache/";
    "node_modules/"; ".venv/"; "venv/"; ".next/"; "dist/"; "build/";
    ".claude_data/"; ".claude/"; "inputs/" ].

Definition LF : string := String "010" EmptyString.
Definition DQ : string := String "034" EmptyString.

(** The body of the askpass helper. *)
Definition askpass_script : string :=
  "#!/bin/sh" +:+ LF +:+
  "prompt=" +:+ DQ +:+ "$1" +:+ DQ +:+ LF +:+
  "case " +:+ DQ +:+ "$prompt" +:+ DQ +:+ " in" +:+ LF +:+
  "  *Username*) echo " +:+ DQ +:+ "${POCO_GIT_USERNAME:-x-access-token}" +:+ DQ +:+ " ;;" +:+ LF +:+
  "  *) echo " +:+ DQ +:+ "${POCO_GIT_TOKEN:-}" +:+ DQ +:+ " ;;" +:+ LF +:+
  "esac" +:+ LF.

(** [WorkspaceManager.__init__(mount_path)], for the parts of the mount
    path. *)
Definition init (P : platform) (mount : path) : manager :=
  {| root_path := mount;
     claude_config_path := path_join mount ".claude";
     inputs_root := path_join mount "inputs";
     persistent_claude_data := path_join mount ".claude_data";
     system_claude_home := path_join (home_dir P) ".claude" |}.

(** The state a fresh manager starts in. *)
Definition init_state (mount : path) (fs : filesys) : state :=
  State fs mount None [].

(** ** The methods of [WorkspaceManager] *)
Section Methods.

Context (G : git_layer) (P : platform) (self : manager).

Definition call_is_repository (p : path) : M bool := query (λ fs, is_repository G fs p).

Definition call_clone (url : string) (p : path) (branch : option string)
    (env : gmap string string) : M path :=
  log (EvClone url p branch env) >> perform (clone G url p branch env).

Definition call_init_repository (p : path) : M unit :=
  log (EvInit p) >> perform (init_repository G p).

Definition call_fetch (remote branch : string) (cwd : path)
    (env : gmap string string) : M unit :=
  log (EvFetch remote branch cwd env) >> perform (fetch G remote branch cwd env).

Definition call_checkout (branch : string) (cwd : path) : M unit :=
  log (EvCheckout branch cwd) >> perform (checkout G branch cwd).

(** [_setup_session_persistence]. *)
Definition setup_session_persistence : M unit :=
  mkdir false true (persistent_claude_data self) >>
  let! present := query (λ fs, path_exists fs (system_claude_home self)
                               || path_is_symlink fs (system_claude_home self)) in
  (if present then
     let! link := query (λ fs, path_is_symlink fs (system_claude_home self)) in
     if link then unlink false (system_claude_home self)
     else rmtree (system_claude_home self)
   else ret tt) >>
  symlink_to (system_claude_home self) (persistent_claude_data self).

(** [cleanup]. *)
Definition cleanup : M unit :=
  let! link := query (λ fs, path_is_symlink fs (system_claude_home self)) in
  (if link then unlink false (system_claude_home self) else ret tt) >>
  let! askpass := get_askpass in
  match askpass with
  | Some p =>
      try_except (unlink true p) is_Exception (λ _, ret tt) >>
      set_askpass None
  | None => ret tt
  end.

(** [_ensure_git_askpass]; closing the descriptor of [mkstemp] leaves the
    file system as it is. *)
Definition ensure_git_askpass : M path :=
  let! askpass := get_askpass in
  let! reuse := match askpass with
                | Some p => query (λ fs, path_exists fs p)
                | None => ret false
                end in
  match askpass, reuse with
  | Some p, true => ret p
  | _, _ =>
      let! p := make_temp (temp_dir P) "poco-git-askpass-" (temp_names P) in
      write_text p askpass_script >>
      chmod p (N.lor (N.lor S_IRUSR S_IWUSR) S_IXUSR) >>
      set_askpass (Some p) >>
      ret p
  end.

(** [_build_git_env]. *)
Definition build_git_env (repo_url : string) (git_token : option string)
    : M (gmap string string) :=
  let env : gmap string string := {[ "GIT_TERMINAL_PROMPT" := "0" ]} in
  match git_token with
  | None => ret env
  | Some token =>
      if bool_decide (token = EmptyString) then ret env
      else
        match urlparse P repo_url with
        | inl _ => ret env
        | inr (scheme, netloc) =>
            let host := Py.lower (Py.strip netloc) in
            if negb (bool_decide (scheme ∈ ["http"; "https"]))
               || negb (bool_decide (host ∈ ["github.com"; "www.github.com"]))
            then ret env
            else
              let! askpass := ensure_git_askpass in
              ret (<["POCO_GIT_TOKEN" := token]>
                     (<["POCO_GIT_USERNAME" := "x-access-token"]>
                        (<["GIT_ASKPASS" := path_str askpass]> env)))
        end
  end.

(** The detail of an error message, cut to 2000 characters. *)
Definition compact (detail : string) : string :=
  if 2000 <? String.length detail then Py.take 2000 detail +:+ "…" else detail.

(** [_checkout_branch]. *)
Definition checkout_branch (p : path) (branch : option string)
    (env : gmap string string) : M unit :=
  match branch with
  | None => ret tt
  | Some b =>
      if bool_decide (b = EmptyString) then ret tt
      else
        try_except
          (call_fetch "origin" b p env >> call_checkout b p)
          is_git_or_os_error
          (λ exc, raise (Exn RuntimeError
             ("Failed to checkout branch '" +:+ b +:+ "' for repo at " +:+ path_str p
              +:+ ". " +:+ compact (exn_msg exc))))
  end.

(** [_derive_repo_path] on the manager's root. *)
Definition derive_repo_path_self (repo_url : string) : path :=
  derive_repo_path (root_path self) repo_url.

(** [_ensure_cloned_repo]. *)
Definition ensure_cloned_repo (repo_url : string) (branch git_token : option string)
    : M path :=
  let repo_path := derive_repo_path_self repo_url in
  let! git_env := build_git_env repo_url git_token in
  let! valid := query (λ fs, path_exists fs repo_path && is_repository G fs repo_path) in
  if valid then checkout_branch repo_path branch git_env >> ret repo_path
  else
    let! foreign := query (λ fs, path_exists fs repo_path && negb (is_repository G fs repo_path)) in
    if foreign then
      raise (Exn RuntimeError
        ("Target path exists but is not a git repository: " +:+ path_str repo_path))
    else
      try_except
        (call_clone repo_url repo_path branch git_env)
        is_git_or_os_error
        (λ exc, raise (Exn RuntimeError
           ("Failed to clone repository: " +:+ repo_url +:+ ". " +:+ compact (exn_msg exc)))).

(** [_ensure_git_repo]. *)
Definition ensure_git_repo (p : path) : M unit :=
  let! repo := call_is_repository p in
  if repo then ret tt
  else
    try_except (call_init_repository p) is_Exception
      (λ exc, warning ("Failed to init git repository at " +:+ path_str p +:+ ": " +:+ exn_msg exc)).

(** [(s or EmptyString).strip()]. *)
Definition or_empty_strip (o : option string) : string :=
  Py.strip (default EmptyString o).

(** [_prepare_repository]. *)
Definition prepare_repository (config : TaskConfig) : M path :=
  let url := or_empty_strip (repo_url config) in
  if negb (bool_decide (url = EmptyString)) then
    let token := or_empty_strip (git_token config) in
    ensure_cloned_repo url (git_branch config)
      (if bool_decide (token = EmptyString) then None else Some token)
  else
    ensure_git_repo (root_path self) >> ret (root_path self).

(** The candidate patterns of [_ensure_git_excludes]: the built-in ones,
    then the non-blank entries of [WORKSPACE_GIT_IGNORE]. *)
Definition extra_patterns (extra : string) : list string :=
  List.filter (λ v, negb (bool_decide (v = EmptyString)))
    (map Py.strip (Py.splitlines (Py.replace_char "," "010" extra))).

Definition exclude_patterns : list string :=
  DEFAULT_GIT_EXCLUDES ++
  (if bool_decide (workspace_git_ignore P = EmptyString) then []
   else extra_patterns (workspace_git_ignore P)).

(** The non-blank lines of the exclude file, stripped. *)
Definition present_lines (content : string) : list string :=
  List.filter (λ v, negb (bool_decide (v = EmptyString)))
    (map Py.strip (Py.splitlines content)).

(** [[p for p in patterns if p not in existing]]. *)
Definition select_missing (patterns existing : list string) : list string :=
  List.filter (λ p, negb (bool_decide (p ∈ existing))) patterns.

(** [_ensure_git_excludes]; the set [existing] is kept as the list of its
    elements. *)
Definition ensure_git_excludes (repo_path : path) : M unit :=
  let! repo := call_is_repository repo_path in
  if negb repo then ret tt
  else
    let patterns := exclude_patterns in
    match patterns with
    | [] => ret tt
    | _ =>
        let exclude_path := path_join (path_join (path_join repo_path ".git") "info") "exclude" in
        mkdir true true (parent exclude_path) >>
        let! there := query (λ fs, path_exists fs exclude_path) in
        let! existing :=
          (if there then
             try_except
               (let! text := read_text exclude_path in ret (present_lines text))
               is_Exception
               (λ exc, warning ("Failed to read git exclude file " +:+ path_str exclude_path
                                 +:+ ": " +:+ exn_msg exc) >> ret [])
           else ret []) in
        let to_add := select_missing patterns existing in
        match to_add with
        | [] => ret tt
        | _ =>
            try_except
              (let! there := query (λ fs, path_exists fs exclude_path) in
               let! content :=
                 (if there then
                    let! text := read_text exclude_path in
                    ret (if negb (bool_decide (text = EmptyString)) && negb (Py.endswith LF text)
                         then text +:+ LF else text)
                  else ret EmptyString) in
               write_text exclude_path (content +:+ Py.join LF to_add +:+ LF))
              is_Exception
              (λ exc, warning ("Failed to update git exclude file " +:+ path_str exclude_path
                                +:+ ": " +:+ exn_msg exc))
        end
    end.

(** [_ensure_inputs_dir]. *)
Definition ensure_inputs_dir (repo_path : path) : M unit :=
  let! made :=
    try_except (mkdir true true (inputs_root self) >> ret true) is_Exception
      (λ exc, warning ("Failed to create inputs directory " +:+ path_str (inputs_root self)
                        +:+ ": " +:+ exn_msg exc) >> ret false) in
  if negb made then ret tt
  else if bool_decide (repo_path = root_path self) then ret tt
  else
    let link_path := path_join repo_path "inputs" in
    let! there := query (λ fs, path_exists fs link_path) in
    if there then ret tt
    else
      try_except (symlink_to link_path (inputs_root self)) is_Exception
        (λ exc, warning ("Failed to link inputs directory " +:+ path_str link_path
                          +:+ ": " +:+ exn_msg exc)).

(** [prepare]. *)
Definition prepare (config : TaskConfig) : M unit :=
  let! there := query (λ fs, path_exists fs (root_path self)) in
  (if negb there then mkdir true true (root_path self) else ret tt) >>
  setup_session_persistence >>
  let! wp := prepare_repository config in
  set_work_path wp >>
  ensure_inputs_dir wp >>
  ensure_git_excludes wp.

(** The order of phases the specification lists for [prepare]: persistence
    linker, repository resolver, exclude-file maintainer, inputs-directory
    linker. It is stated to be compared with [prepare]. *)
Definition prepare_spec_order (config : TaskConfig) : M unit :=
  let! there := query (λ fs, path_exists fs (root_path self)) in
  (if negb there then mkdir true true (root_path self) else ret tt) >>
  setup_session_persistence >>
  let! wp := prepare_repository config in
  set_work_path wp >>
  ensure_git_excludes wp >>
  ensure_inputs_dir wp.

End Methods.

(** ** A concrete platform and git layer

    They instantiate the interfaces above where a statement is evaluated on
    a concrete input. [Sim.urlparse] follows the scheme and network-location
    rules of [urllib.parse.urlsplit]; the git layer keeps the repository
    data in the directory [.git]. *)
Module Sim.

Definition is_alpha (c : ascii) : bool :=
  let n := nat_of_ascii c in
  ((65 <=? n) && (n <=? 90)) || ((97 <=? n) && (n <=? 122)).

Definition is_scheme_char (c : ascii) : bool :=
  let n := nat_of_ascii c in
  is_alpha c || ((48 <=? n) && (n <=? 57)) || bool_decide (c ∈ ["+"; "-"; "."]%char).

(** The part of [s] behind the first [c]. *)
Fixpoint after (c : ascii) (s : string) : string :=
  match s with
  | EmptyString => EmptyString
  | String a s' => if decide (a = c) then s' else after c s'
  end.

(** Leading C0 control characters and spaces are dropped. *)
Fixpoint lstrip_c0 (s : string) : string :=
  match s with
  | EmptyString => EmptyString
  | String a s' => if nat_of_ascii a <=? 32 then lstrip_c0 s' else s
  end.

(** Tabs and newlines are removed throughout. *)
Fixpoint remove_unsafe (s : string) : string :=
  match s with
  | EmptyString => EmptyString
  | String a s' =>
      if bool_decide (a ∈ ["009"; "010"; "013"]%char) then remove_unsafe s'
      else String a (remove_unsafe s')
  end.

(** The network location ends at the first of [/], [?] and [#]. *)
Fixpoint netloc_of (s : string) : string :=
  match s with
  | EmptyString => EmptyString
  | String a s' =>
      if bool_decide (a ∈ ["/"; "?"; "#"]%char) then EmptyString
      else String a (netloc_of s')
  end.

Definition urlparse (url : string) : exn + (string * string) :=
  let url := remove_unsafe (lstrip_c0 url) in
  let '(scheme, rest) :=
    if Py.has_char ":" url then
      let pre := Py.before ":" url in
      match pre with
      | String a _ =>
          if is_alpha a && Py.all_chars is_scheme_char pre
          then (Py.lower pre, after ":" url) else (EmptyString, url)
      | EmptyString => (EmptyString, url)
      end
    else (EmptyString, url) in
  match rest with
  | String "/" (String "/" rest') =>
      let netloc := netloc_of rest' in
      if xorb (Py.has_char "[" netloc) (Py.has_char "]" netloc)
      then inl (Exn ValueError "Invalid IPv6 URL")
      else inr (scheme, netloc)
  | _ => inr (scheme, EmptyString)
  end.

Definition host : platform :=
  Platform urlparse ["root"] ["tmp"] ["k3x9qa7b"; "w0m2zt5c"] EmptyString.

(** The same platform with [WORKSPACE_GIT_IGNORE=dist/]. *)
Definition host_extra : platform :=
  Platform urlparse ["root"] ["tmp"] ["k3x9qa7b"; "w0m2zt5c"] "dist/".

Definition is_repository (fs : filesys) (p : path) : bool :=
  path_is_dir fs (p ++ [".git"]).

(** Create the work tree and its [.git]. *)
Definition clone (url : string) (p : path) (branch : option string)
    (env : gmap string string) (fs : filesys) : filesys * (exn + path) :=
  match os_mkdir p fs with
  | inl e => (fs, inl (Exn GitCommandError ("git clone failed: " +:+ exn_msg e)))
  | inr fs1 =>
      match os_mkdir (p ++ [".git"]) fs1 with
      | inl e => (fs1, inl (Exn GitCommandError ("git clone failed: " +:+ exn_msg e)))
      | inr fs2 => (fs2, inr p)
      end
  end.

Definition init_repository (p : path) (fs : filesys) : filesys * (exn + unit) :=
  match os_mkdir (p ++ [".git"]) fs with
  | inl e => (fs, inl (Exn GitCommandError ("git init failed: " +:+ exn_msg e)))
  | inr fs1 => (fs1, inr tt)
  end.

Definition checkout (branch : string) (cwd : path) (fs : filesys)
    : filesys * (exn + unit) := (fs, inr tt).

Definition fetch (remote branch : string) (cwd : path)
    (env : gmap string string) (fs : filesys) : filesys * (exn + unit) := (fs, inr tt).

Definition git : git_layer :=
  GitLayer is_repository clone init_repository checkout fetch.

(** A mount with the directories [/workspace], [/root] and [/tmp]. *)
Definition fs0 : filesys :=
  FileSys (list_to_map [(["workspace"], Dir); (["root"], Dir); (["tmp"], Dir)]) ∅.

Definition self : manager := init host ["workspace"].

Definition st0 : state := init_state ["workspace"] fs0.

Definition askpass_file : path := ["tmp"; "poco-git-askpass-k3x9qa7b"].

(** The mount after a session was prepared: [~/.claude] links to the
    persistent data and an askpass script is in place. *)
Definition nodes_linked : gmap path node :=
  list_to_map
    [ (["workspace"], Dir); (["root"], Dir); (["tmp"], Dir);
      (["workspace"; ".claude_data"], Dir);
      (["root"; ".claude"], Symlink ["workspace"; ".claude_data"]);
      (askpass_file, File askpass_script 448) ].

Definition st_linked : state :=
  State (FileSys nodes_linked ∅) ["workspace"] (Some askpass_file) [].


(** A mount where [~/.claude] is a regular file. *)
Definition st_home_file : state :=
  State (FileSys (<[ ["root"; ".claude"] := File "{}" 420 ]> (fs_nodes fs0)) ∅)
        ["workspace"] None [].

(** The mount with the repository [demo] cloned below it. *)
Definition st_cloned : state :=
  State (FileSys (<[ ["workspace"; "demo"; ".git"] := Dir ]>
                    (<[ ["workspace"; "demo"] := Dir ]> (fs_nodes fs0))) ∅)
        ["workspace"] None [].


(** The cloned mount where [.git/info] is a regular file. *)
Definition st_info_file : state :=
  State (FileSys (<[ ["workspace"; "demo"; ".git"; "info"] := File "x" 420 ]>
                    (fs_nodes (st_fs st_cloned))) ∅)
        ["workspace"] None [].

Definition demo_url : string := "https://github.com/acme/demo.git".

Definition cfg_demo (branch : option string) : TaskConfig :=
  Build_TaskConfig (Some demo_url) branch (Some "abc").

End Sim.

(** * Properties *)

Example split_demo : Py.split "/" "https://github.com/acme/demo.git"
  = ["https:"; EmptyString; "github.com"; "acme"; "demo.git"].
Proof. reflexivity. Qed.

Example splitlines_demo :
  Py.splitlines ("a" +:+ String "013" (String "010" ("b" +:+ LF))) = ["a"; "b"].
Proof. reflexivity. Qed.

Example derive_demo :
  derive_repo_path ["workspace"] "https://github.com/acme/demo.git?x=1#frag" = ["workspace"; "demo"].
Proof. reflexivity. Qed.

Example derive_dots : derive_repo_path ["workspace"] "https://evil.example/..git" = ["workspace"; "repo"].
Proof. reflexivity. Qed.

Example derive_dotdot : derive_repo_path ["workspace"] "https://evil.example/a/../" = ["workspace"; "repo"].
Proof. reflexivity. Qed.

Example urlparse_demo : Sim.urlparse "HTTPS://GitHub.com/acme/demo.git" = inr ("https", "GitHub.com").
Proof. reflexivity. Qed.

(** ** Facts about the string methods *)
Section StringFacts.

Lemma split_not_nil c s : Py.split c s ≠ [].
Proof.
  destruct s as [|a s]; simpl; [done|].
  case_decide; [done|]. by destruct (Py.split c s).
Qed.

Lemma split_no_sep c s : Forall (λ x, Py.has_char c x = false) (Py.split c s).
Proof.
  induction s as [|a s IH]; simpl.
  - by constructor.
  - case_decide as Ha.
    + by constructor.
    + destruct (Py.split c s) as [|h t].
      * constructor; [|done]. simpl. by rewrite bool_decide_eq_false_2.
      * inversion IH; subst. constructor; [|done].
        simpl. by rewrite bool_decide_eq_false_2.
Qed.

Lemma split_without_sep c s : Py.has_char c s = false → Py.split c s = [s].
Proof.
  induction s as [|a s IH]; simpl; [done|].
  intros [Ha Hs]%orb_false_elim. apply bool_decide_eq_false in Ha.
  rewrite decide_False by done. by rewrite IH.
Qed.

Lemma last_Forall {A} (Q : A → Prop) (l : list A) d :
  Forall Q l → l ≠ [] → Q (List.last l d).
Proof.
  induction 1 as [|x l Hx Hl IH]; [done|]. intros _.
  destruct l as [|y l]; [done|]. apply IH. done.
Qed.

Lemma has_char_substring c s : ∀ n m,
  Py.has_char c s = false → Py.has_char c (String.substring n m s) = false.
Proof.
  induction s as [|a s IH]; intros n m; simpl.
  - by destruct n, m.
  - intros [Ha Hs]%orb_false_elim.
    destruct n as [|n]; [destruct m as [|m]|]; simpl; auto.
    rewrite Ha. simpl. by apply IH.
Qed.

Lemma startswith_slash_has_char s :
  Py.has_char "/" s = false → Py.startswith "/" s = false.
Proof.
  destruct s as [|a s]; [done|]. simpl. intros [Ha _]%orb_false_elim.
  apply bool_decide_eq_false in Ha. rewrite bool_decide_eq_false_2; [done|].
  by intros <-.
Qed.

End StringFacts.

(** ** Path derivation stays below the root *)

Lemma child_name_parts n : is_child_name n = true → parse_parts n = [n].
Proof.
  unfold is_child_name, parse_parts.
  rewrite !andb_true_iff, !negb_true_iff, !bool_decide_eq_false.
  intros [[[H1 H2] H3] H4]. rewrite split_without_sep by done.
  rewrite filter_cons_True by done. done.
Qed.

Lemma path_join_child p n : is_child_name n = true → path_join p n = p ++ [n].
Proof.
  intros Hn. unfold path_join. rewrite (child_name_parts n Hn).
  rewrite startswith_slash_has_char; [done|].
  unfold is_child_name in Hn. rewrite !andb_true_iff, !negb_true_iff in Hn. tauto.
Qed.

Lemma derive_repo_name_child url : is_child_name (derive_repo_name url) = true.
Proof.
  unfold derive_repo_name.
  set (clean := Py.rstrip_char "/" _).
  set (name0 := if bool_decide (clean = EmptyString) then "repo" else _).
  set (name1 := if Py.endswith ".git" name0 then _ else name0).
  assert (H0 : Py.has_char "/" name0 = false).
  { unfold name0. case_bool_decide; [done|].
    apply (last_Forall (λ x, Py.has_char "/" x = false));
      [apply split_no_sep | apply split_not_nil]. }
  assert (H1 : Py.has_char "/" name1 = false).
  { unfold name1. destruct (Py.endswith ".git" name0); [|done].
    by apply has_char_substring. }
  destruct (bool_decide (name1 = EmptyString)) eqn:E1; [done|].
  destruct (bool_decide (name1 = ".")) eqn:E2; [done|].
  destruct (bool_decide (name1 = "..")) eqn:E3; [done|].
  simpl. unfold is_child_name. by rewrite E1, E2, E3, H1.
Qed.


(** ** Reasoning about computations *)
Section Computations.

Context {A B : Type}.

Lemma bind_ok (m : M A) (k : A → M B) st st' a :
  m st = (st', Ok a) → bind m k st = k a st'.
Proof. unfold bind. by intros ->. Qed.

Lemma bind_raise (m : M A) (k : A → M B) st st' e :
  m st = (st', Raise e) → bind m k st = (st', Raise e).
Proof. unfold bind. by intros ->. Qed.

Lemma try_ok (m : M A) c h st st' a :
  m st = (st', Ok a) → try_except m c h st = (st', Ok a).
Proof. unfold try_except. by intros ->. Qed.

Lemma try_caught (m : M A) c h st st' e :
  m st = (st', Raise e) → c e = true → try_except m c h st = h e st'.
Proof. unfold try_except. by intros -> ->. Qed.

Lemma try_passed (m : M A) c h st st' e :
  m st = (st', Raise e) → c e = false → try_except m c h st = (st', Raise e).
Proof. unfold try_except. by intros -> ->. Qed.

Lemma bind_assoc {C} (m : M A) (f : A → M B) (g : B → M C) st :
  bind (bind m f) g st = bind m (λ x, bind (f x) g) st.
Proof. unfold bind. by destruct (m st) as [st' [a|e]]. Qed.

End Computations.

(** Unfold the primitive computations in the goal. *)
Ltac mrun :=
  unfold mkdir, unlink, rmtree, symlink_to, read_text, write_text, chmod, warning, make_temp,
    call_is_repository, call_clone, call_init_repository, call_fetch, call_checkout,
    bind, ret, raise, try_except, query, update, perform, log,
    get_askpass, set_askpass, set_work_path, with_fs; simpl.

(** ** The credential broker *)

(** The allow-list test of [_build_git_env] on the parsed URL. *)
Definition github_over_http (P : platform) (url : string) : bool :=
  match urlparse P url with
  | inl _ => false
  | inr (scheme, netloc) =>
      bool_decide (scheme ∈ ["http"; "https"])
      && bool_decide (Py.lower (Py.strip netloc) ∈ ["github.com"; "www.github.com"])
  end.

Definition prompt_only : gmap string string := {[ "GIT_TERMINAL_PROMPT" := "0" ]}.

Definition with_credentials (askpass : path) (token : string) : gmap string string :=
  <["POCO_GIT_TOKEN" := token]>
    (<["POCO_GIT_USERNAME" := "x-access-token"]>
       (<["GIT_ASKPASS" := path_str askpass]> prompt_only)).

Lemma build_git_env_withheld P url tok st :
  Py.truthy tok = false ∨ github_over_http P url = false →
  build_git_env P url tok st = (st, Ok prompt_only).
Proof.
  unfold build_git_env, github_over_http, Py.truthy.
  destruct tok as [t|]; [|done].
  destruct (bool_decide (t = EmptyString)); [done|].
  intros [?|H]; [done|].
  destruct (urlparse P url) as [e|[scheme netloc]]; [done|].
  apply andb_false_iff in H as [-> | ->]; simpl; [done|].
  by rewrite orb_true_r.
Qed.

Lemma build_git_env_granted P url t st :
  t ≠ EmptyString → github_over_http P url = true →
  build_git_env P url (Some t) st =
    (let! askpass := ensure_git_askpass P in ret (with_credentials askpass t)) st.
Proof.
  unfold build_git_env, github_over_http. intros Ht H.
  rewrite bool_decide_eq_false_2 by done.
  destruct (urlparse P url) as [e|[scheme netloc]]; [done|].
  apply andb_true_iff in H as [-> ->]. done.
Qed.

(** C1, as the code has it. [_build_git_env] returns the map holding only
    [GIT_TERMINAL_PROMPT=0] when the token is absent or the empty string,
    and also when a token is given but the URL fails to parse, its scheme is
    not http/https or its host (the network location, stripped and
    lower-cased) is not [github.com] or [www.github.com]: then neither
    [GIT_ASKPASS] nor [POCO_GIT_TOKEN] is set. With a non-empty token, an
    http/https scheme and such a host, it returns, once the askpass helper
    is there, the map that adds [GIT_ASKPASS] (the script's path),
    [POCO_GIT_USERNAME=x-access-token] and [POCO_GIT_TOKEN] (the token as
    given). Whenever it returns, the map holds [GIT_TERMINAL_PROMPT=0]. *)
Theorem build_git_env_entries (P : platform) (url : string) (tok : option string) (st : state) :
  (Py.truthy tok = false ∨ github_over_http P url = false →
     build_git_env P url tok st = (st, Ok prompt_only)
     ∧ prompt_only !! "GIT_ASKPASS" = None
     ∧ prompt_only !! "POCO_GIT_TOKEN" = None)
  ∧ (∀ t st' p, tok = Some t → t ≠ EmptyString → github_over_http P url = true →
       ensure_git_askpass P st = (st', Ok p) →
       build_git_env P url tok st = (st', Ok (with_credentials p t))
       ∧ with_credentials p t !! "GIT_ASKPASS" = Some (path_str p)
       ∧ with_credentials p t !! "POCO_GIT_USERNAME" = Some "x-access-token"
       ∧ with_credentials p t !! "POCO_GIT_TOKEN" = Some t)
  ∧ (∀ st' env, build_git_env P url tok st = (st', Ok env) →
       env !! "GIT_TERMINAL_PROMPT" = Some "0").
Proof.
  split; [|split].
  - intros H. by rewrite build_git_env_withheld.
  - intros t st' p -> Ht Hh Hp.
    rewrite build_git_env_granted by done.
    rewrite (bind_ok _ _ _ _ _ Hp). done.
  - intros st' env.
    destruct (Py.truthy tok) eqn:Htok;
      [destruct (github_over_http P url) eqn:Hh|].
    + destruct tok as [t|]; [|done]. simpl in Htok.
      apply negb_true_iff, bool_decide_eq_false in Htok.
      rewrite build_git_env_granted by done.
      unfold bind. destruct (ensure_git_askpass P st) as [st1 [p|e]]; [|done].
      unfold ret. by intros [= _ <-].
    + rewrite build_git_env_withheld by auto. by intros [= _ <-].
    + rewrite build_git_env_withheld by auto. by intros [= _ <-].
Qed.

Lemma build_git_env_entries_witness :
  build_git_env Sim.host "https://github.com/acme/repo" (Some "abc") Sim.st0
  = ((ensure_git_askpass Sim.host Sim.st0).1,
     Ok (with_credentials ["tmp"; "poco-git-askpass-k3x9qa7b"] "abc")).
Proof.
  refine (proj1 (proj1 (proj2 (build_git_env_entries Sim.host _ _ Sim.st0))
    "abc" _ ["tmp"; "poco-git-askpass-k3x9qa7b"] eq_refl _ _ _)).
  - discriminate.
  - vm_compute. reflexivity.
  - vm_compute. reflexivity.
Defined.

(** A whitespace-only token is a given token for [_build_git_env]: on a
    GitHub URL it is exported like any other. *)
Lemma build_git_env_blank_token :
  Py.strip " " = EmptyString
  ∧ ∃ st' env,
      build_git_env Sim.host "https://github.com/acme/repo" (Some " ") Sim.st0 = (st', Ok env)
      ∧ env !! "POCO_GIT_TOKEN" = Some " "
      ∧ env ≠ prompt_only.
Proof.
  split; [reflexivity|].
  exists (ensure_git_askpass Sim.host Sim.st0).1,
         (with_credentials ["tmp"; "poco-git-askpass-k3x9qa7b"] " ").
  split; [vm_compute; reflexivity|].
  split; [reflexivity|].
  intros H.
  assert (Hx : with_credentials ["tmp"; "poco-git-askpass-k3x9qa7b"] " "
               !! "POCO_GIT_TOKEN" = Some " ") by reflexivity.
  rewrite H in Hx. discriminate Hx.
Qed.

(** ** File-system facts *)

Lemma lstat_set_node_eq p n fs : p ≠ [] → lstat (set_node p n fs) p = Some n.
Proof. destruct p; [done|]. intros _. simpl. by rewrite lookup_insert_eq. Qed.

Lemma lstat_set_node_ne p q n fs : p ≠ q → lstat (set_node p n fs) q = lstat fs q.
Proof. intros H. destruct q; [done|]. simpl. by rewrite lookup_insert_ne. Qed.

Lemma set_node_twice p n1 n2 fs : set_node p n2 (set_node p n1 fs) = set_node p n2 fs.
Proof. unfold set_node. simpl. by rewrite insert_insert_eq. Qed.

Lemma parent_child (d : path) (x : string) : parent (d ++ [x]) = d.
Proof. unfold parent. by rewrite removelast_last. Qed.

Lemma child_not_root (d : path) (x : string) : d ++ [x] ≠ [].
Proof. by destruct d. Qed.

(** A path that holds no symbolic link resolves to itself. *)
Lemma resolve_not_link fs p :
  (∀ t, lstat fs p ≠ Some (Symlink t)) → resolve fs p = Some p.
Proof.
  unfold resolve. simpl. intros H.
  destruct (lstat fs p) as [[| |t]|] eqn:E; try done. by destruct (H t).
Qed.

Lemma create_error_None fs p :
  create_error fs p = None →
  lstat fs p = None ∧ lstat fs (parent p) = Some Dir ∧ parent p ∉ fs_readonly fs.
Proof.
  unfold create_error.
  destruct (lstat fs (parent p)) as [[| |]|]; try done.
  destruct (lstat fs p); [done|]. by case_decide.
Qed.

Lemma mkstemp_inr dir pre names fs p fs' :
  mkstemp dir pre names fs = inr (p, fs') →
  lstat fs p = None ∧ parent p = dir ∧ p ≠ []
  ∧ fs' = set_node p (File EmptyString 384) fs.
Proof.
  induction names as [|n names IH]; simpl; [done|].
  destruct (create_error fs (dir ++ [pre +:+ n])) as [e|] eqn:E.
  - case_decide; [done|discriminate].
  - intros [= <- <-]. apply create_error_None in E as (? & ? & ?).
    split_and!; auto using parent_child, child_not_root.
Qed.

Lemma mkstemp_inl dir pre names fs e :
  mkstemp dir pre names fs = inl e → is_OSError e = true.
Proof.
  induction names as [|n names IH]; simpl.
  - by intros [= <-].
  - unfold create_error.
    destruct (lstat fs (parent _)) as [[| |]|];
      [destruct (lstat fs _); [|case_decide]|..]; simpl;
      try (by intros [= <-]); done.
Qed.

(** ** The askpass helper *)

Definition askpass_mode : N := N.lor (N.lor S_IRUSR S_IWUSR) S_IXUSR.

(** The three ways [_ensure_git_askpass] ends: the script at hand is reused,
    a new one is written in the temporary directory, or no temporary file
    could be created. *)
Inductive askpass_result (P : platform) (st : state) : state → outcome path → Prop :=
  | askpass_reused p :
      st_askpass st = Some p → path_exists (st_fs st) p = true →
      askpass_result P st st (Ok p)
  | askpass_created p :
      lstat (st_fs st) p = None → parent p = temp_dir P → p ≠ [] →
      askpass_result P st
        (State (set_node p (File askpass_script askpass_mode) (st_fs st))
               (st_work_path st) (Some p)
               (st_trace st ++ [EvMkstemp "poco-git-askpass-";
                                EvWrite p askpass_script; EvChmod p askpass_mode]))
        (Ok p)
  | askpass_failed e :
      is_OSError e = true →
      askpass_result P st
        (State (st_fs st) (st_work_path st) (st_askpass st)
               (st_trace st ++ [EvMkstemp "poco-git-askpass-"]))
        (Raise e).

(** The part of [_ensure_git_askpass] that writes a new script. *)
Definition create_git_askpass (P : platform) : M path :=
  let! p := make_temp (temp_dir P) "poco-git-askpass-" (temp_names P) in
  write_text p askpass_script >>
  chmod p (N.lor (N.lor S_IRUSR S_IWUSR) S_IXUSR) >>
  set_askpass (Some p) >>
  ret p.

Lemma ensure_git_askpass_unfold P st :
  ensure_git_askpass P st =
    match st_askpass st with
    | Some p => if path_exists (st_fs st) p then (st, Ok p) else create_git_askpass P st
    | None => create_git_askpass P st
    end.
Proof.
  unfold ensure_git_askpass, create_git_askpass.
  unfold bind at 1. unfold get_askpass at 1.
  destruct (st_askpass st) as [p|].
  - unfold bind at 1. unfold query at 1. by destruct (path_exists (st_fs st) p).
  - done.
Qed.

Lemma create_git_askpass_result P st st' r :
  create_git_askpass P st = (st', r) → askpass_result P st st' r.
Proof.
  unfold create_git_askpass. mrun.
  destruct (mkstemp _ _ _ _) as [e|[p fs']] eqn:E; simpl.
  - intros [= <- <-]. apply askpass_failed. by eapply mkstemp_inl.
  - apply mkstemp_inr in E as (Hnone & Hpar & Hp & ->).
    unfold path_write_text.
    rewrite resolve_not_link by (rewrite lstat_set_node_eq; done).
    rewrite lstat_set_node_eq by done. simpl.
    unfold path_chmod. rewrite set_node_twice.
    rewrite resolve_not_link by (rewrite lstat_set_node_eq; done).
    rewrite lstat_set_node_eq by done. simpl. rewrite set_node_twice.
    rewrite <- !app_assoc. simpl.
    intros [= <- <-]. by apply askpass_created.
Qed.

Lemma ensure_git_askpass_result P st st' r :
  ensure_git_askpass P st = (st', r) → askpass_result P st st' r.
Proof.
  rewrite ensure_git_askpass_unfold.
  destruct (st_askpass st) as [p|] eqn:Ea;
    [destruct (path_exists (st_fs st) p) eqn:Ee|];
    try apply create_git_askpass_result.
  intros [= <- <-]. by apply askpass_reused.
Qed.

(** The states a manager reaches from one without a script by building git
    environments and by cleaning up. *)
Inductive managed (P : platform) (self : manager) : state → Prop :=
  | managed_fresh st : st_askpass st = None → managed P self st
  | managed_env url tok st :
      managed P self st → managed P self (build_git_env P url tok st).1
  | managed_cleanup st :
      managed P self st → managed P self (cleanup self st).1.

(** The script the manager remembers, where it exists, is the fixed body
    with the owner-only mode. *)
Definition askpass_sound (st : state) : Prop :=
  ∀ p n, st_askpass st = Some p → lstat (st_fs st) p = Some n →
         n = File askpass_script askpass_mode.

Lemma askpass_result_sound P st st' r :
  askpass_result P st st' r → askpass_sound st → askpass_sound st'.
Proof.
  intros [p Ha He|p Hn Hp Hne|e He] Hs; [done| |done].
  intros q n [= <-]. simpl. rewrite lstat_set_node_eq by done. by intros [= <-].
Qed.

Lemma build_git_env_state P url tok st :
  (build_git_env P url tok st).1 = st
  ∨ (Py.truthy tok = true ∧ (build_git_env P url tok st).1 = (ensure_git_askpass P st).1).
Proof.
  destruct (Py.truthy tok) eqn:Htok; [destruct (github_over_http P url) eqn:Hh|].
  - destruct tok as [t|]; [|done]. simpl in Htok.
    apply negb_true_iff, bool_decide_eq_false in Htok.
    right. split; [done|]. rewrite build_git_env_granted by done.
    unfold bind. by destruct (ensure_git_askpass P st) as [st1 [p|e]].
  - left. by rewrite build_git_env_withheld by auto.
  - left. by rewrite build_git_env_withheld by auto.
Qed.

Lemma build_git_env_sound P url tok st :
  askpass_sound st → askpass_sound (build_git_env P url tok st).1.
Proof.
  intros Hs. destruct (build_git_env_state P url tok st) as [->|[_ ->]]; [done|].
  eapply askpass_result_sound; [|done].
  apply ensure_git_askpass_result. apply surjective_pairing.
Qed.

Lemma cleanup_sound self st : askpass_sound st → askpass_sound (cleanup self st).1.
Proof.
  intros Hs. unfold cleanup. mrun.
  destruct (path_is_symlink (st_fs st) (system_claude_home self)); simpl.
  - destruct (path_unlink false _ _) as [e|fs']; simpl; [by destruct st|].
    destruct (st_askpass st) as [p|]; simpl.
    + by destruct (path_unlink true p fs') as [e|fs'']; simpl; intros q n.
    + by intros q n.
  - destruct (st_askpass st) as [p|] eqn:Ea; simpl.
    + by destruct (path_unlink true p _) as [e|fs'']; simpl; intros q n.
    + by destruct st.
Qed.

Lemma managed_sound P self st : managed P self st → askpass_sound st.
Proof.
  induction 1 as [st H|url tok st _ IH|st _ IH].
  - intros p n. by rewrite H.
  - by apply build_git_env_sound.
  - by apply cleanup_sound.
Qed.

(** C5. In every state the manager reaches, the askpass script it
    remembers, if the file exists, has the fixed body [askpass_script] and
    the mode read, write and execute for the owner with no bit for group or
    others. The token takes no part in it: for any two given tokens
    [_build_git_env] leaves the same state, hence the same file, behind. *)
Theorem askpass_script_fixed_and_private (P : platform) (self : manager) (st : state) :
  managed P self st →
  (∀ p n, st_askpass st = Some p → lstat (st_fs st) p = Some n →
     n = File askpass_script askpass_mode)
  ∧ (∀ url t1 t2, t1 ≠ EmptyString → t2 ≠ EmptyString →
       (build_git_env P url (Some t1) st).1 = (build_git_env P url (Some t2) st).1)
  ∧ N.land askpass_mode 448 = 448%N
  ∧ N.land askpass_mode 63 = 0%N.
Proof.
  intros Hm. split; [by apply (managed_sound P self)|]. split; [|done].
  intros url t1 t2 H1 H2.
  destruct (github_over_http P url) eqn:Hh.
  - rewrite !build_git_env_granted by done. unfold bind.
    by destruct (ensure_git_askpass P st) as [st1 [p|e]].
  - by rewrite !build_git_env_withheld by auto.
Qed.

Lemma askpass_script_fixed_and_private_witness :
  lstat (st_fs (build_git_env Sim.host "https://github.com/acme/repo" (Some "abc") Sim.st0).1)
    ["tmp"; "poco-git-askpass-k3x9qa7b"]
  = Some (File askpass_script 448).
Proof.
  pose proof (askpass_script_fixed_and_private Sim.host Sim.self
    (build_git_env Sim.host "https://github.com/acme/repo" (Some "abc") Sim.st0).1
    (managed_env _ _ _ _ _ (managed_fresh _ _ Sim.st0 eq_refl))) as [H _].
  destruct (lstat _ _) as [n|] eqn:E.
  - f_equal. apply (H ["tmp"; "poco-git-askpass-k3x9qa7b"] n); [|exact E].
    vm_compute. reflexivity.
  - vm_compute in E. discriminate.
Defined.

(** ** Directory creation only adds directories *)

(** [fs'] has the entries of [fs] and, besides, new directories at most. *)
Definition grows_dirs (fs fs' : filesys) : Prop :=
  ∀ q, lstat fs' q = lstat fs q ∨ (lstat fs q = None ∧ lstat fs' q = Some Dir).

Lemma grows_dirs_refl fs : grows_dirs fs fs.
Proof. intros q. by left. Qed.

Lemma grows_dirs_trans fs1 fs2 fs3 :
  grows_dirs fs1 fs2 → grows_dirs fs2 fs3 → grows_dirs fs1 fs3.
Proof.
  intros H12 H23 q. destruct (H12 q) as [E|[E1 E2]], (H23 q) as [F|[F1 F2]].
  - left. congruence.
  - right. split; congruence.
  - right. split; congruence.
  - congruence.
Qed.

Lemma os_mkdir_inr p fs fs' :
  os_mkdir p fs = inr fs' →
  lstat fs p = None ∧ p ≠ [] ∧ lstat fs (parent p) = Some Dir
  ∧ fs' = FileSys (<[p := Dir]> (fs_nodes fs)) (fs_readonly fs ∖ {[p]}).
Proof.
  unfold os_mkdir. destruct (create_error fs p) eqn:E; [done|].
  intros [= <-]. apply create_error_None in E as (H1 & H2 & H3).
  split_and!; try done. by intros ->.
Qed.

Lemma os_mkdir_grows p fs fs' : os_mkdir p fs = inr fs' → grows_dirs fs fs'.
Proof.
  intros (Hn & Hp & _ & ->)%os_mkdir_inr q.
  destruct (decide (p = q)) as [<-|Hne].
  - right. split; [done|]. destruct p; [done|]. simpl. by rewrite lookup_insert_eq.
  - left. destruct q; [done|]. simpl. by rewrite lookup_insert_ne.
Qed.

Lemma path_mkdir_go_grows fuel : ∀ parents exist_ok p fs fs' r,
  path_mkdir_go fuel parents exist_ok p fs = (fs', r) → grows_dirs fs fs'.
Proof.
  induction fuel as [|fuel IH]; intros parents exist_ok p fs fs' r; simpl.
  - destruct (os_mkdir p fs) as [e|fs1] eqn:E.
    + repeat case_match; intros [= <- <-]; apply grows_dirs_refl.
    + intros [= <- <-]. by eapply os_mkdir_grows.
  - destruct (os_mkdir p fs) as [e|fs1] eqn:E.
    + case_decide.
      * destruct (negb parents || _); [intros [= <- <-]; apply grows_dirs_refl|].
        destruct (path_mkdir_go fuel true true (parent p) fs) as [fs1 [e1|[]]] eqn:E1.
        -- intros [= <- <-]. by eapply IH.
        -- intros H2. eapply grows_dirs_trans; by eapply IH.
      * case_match; intros [= <- <-]; apply grows_dirs_refl.
    + intros [= <- <-]. by eapply os_mkdir_grows.
Qed.

Lemma mkdir_grows parents exist_ok p st st' r :
  mkdir parents exist_ok p st = (st', r) →
  grows_dirs (st_fs st) (st_fs st')
  ∧ st_askpass st' = st_askpass st ∧ st_work_path st' = st_work_path st
  ∧ st_trace st' = st_trace st ++ [EvMkdir p].
Proof.
  mrun. unfold path_mkdir.
  destruct (path_mkdir_go _ _ _ _ _) as [fs' [e|[]]] eqn:E;
    intros [= <- <-]; simpl; split_and!; try done;
    by eapply path_mkdir_go_grows.
Qed.

Lemma symlink_to_result p t st :
  (∃ fs', path_symlink_to p t (st_fs st) = inr fs'
     ∧ lstat (st_fs st) p = None ∧ p ≠ []
     ∧ fs' = set_node p (Symlink t) (st_fs st)
     ∧ symlink_to p t st
       = (State fs' (st_work_path st) (st_askpass st) (st_trace st ++ [EvSymlink p t]), Ok tt))
  ∨ (∃ e, path_symlink_to p t (st_fs st) = inl e
     ∧ symlink_to p t st
       = (State (st_fs st) (st_work_path st) (st_askpass st) (st_trace st ++ [EvSymlink p t]),
          Raise e)).
Proof.
  mrun. unfold path_symlink_to.
  destruct (create_error (st_fs st) p) as [e|] eqn:E.
  - right. by exists e.
  - left. apply create_error_None in E as (H1 & H2 & H3).
    eexists. split_and!; try done. by intros ->.
Qed.

(** ** The inputs link *)

(** The outcome of [_ensure_inputs_dir]: it returns, and the file system is
    the one after creating the inputs root, with the link added at most. *)
Lemma ensure_inputs_dir_cases self repo_path st :
  let link := path_join repo_path "inputs" in
  ∃ st' fs1,
    ensure_inputs_dir self repo_path st = (st', Ok tt)
    ∧ grows_dirs (st_fs st) fs1
    ∧ (st_fs st' = fs1
       ∨ (repo_path ≠ root_path self ∧ lstat fs1 link = None ∧ link ≠ []
          ∧ path_exists fs1 link = false
          ∧ st_fs st' = set_node link (Symlink (inputs_root self)) fs1)).
Proof.
  intros link. unfold ensure_inputs_dir. fold link.
  destruct (mkdir true true (inputs_root self) st) as [st1 [[]|e]] eqn:E1;
    pose proof (mkdir_grows _ _ _ _ _ _ E1) as (Hg & _).
  - erewrite bind_ok; [|by erewrite try_ok; [|erewrite bind_ok; [|done]]].
    simpl. case_bool_decide as Hroot.
    { exists st1, (st_fs st1). split_and!; auto. }
    unfold bind at 1. unfold query at 1.
    destruct (path_exists (st_fs st1) link) eqn:Hex.
    { exists st1, (st_fs st1). split_and!; auto. }
    destruct (symlink_to_result link (inputs_root self) st1)
      as [(fs' & _ & Hn & Hne & -> & Hs)|(e & _ & Hs)].
    + erewrite try_ok by done. eexists _, (st_fs st1). split_and!; [done|done|].
      right. split_and!; done.
    + erewrite try_caught; [|done|done]. unfold warning, log. simpl.
      eexists _, (st_fs st1). split_and!; [done|done|]. by left.
  - erewrite bind_ok; cycle 1.
    { erewrite try_caught; [|by erewrite bind_raise|done].
      unfold warning. mrun. done. }
    simpl. eexists _, (st_fs st1). split_and!; [done|done|]. by left.
Qed.


(** ** Teardown *)

Definition remove_node (p : path) (fs : filesys) : filesys :=
  FileSys (delete p (fs_nodes fs)) (fs_readonly fs).

Lemma lstat_remove_node_eq p fs : p ≠ [] → lstat (remove_node p fs) p = None.
Proof. destruct p; [done|]. intros _. simpl. by rewrite lookup_delete_eq. Qed.

Lemma lstat_remove_node_ne p q fs : p ≠ q → lstat (remove_node p fs) q = lstat fs q.
Proof. intros H. destruct q; [done|]. simpl. by rewrite lookup_delete_ne. Qed.

(** [unlink] either removes the one entry, or finds nothing to remove and
    may say so, or fails and leaves the file system as it is. *)
Lemma path_unlink_cases missing_ok p fs :
  (path_unlink missing_ok p fs = inr (remove_node p fs) ∧ p ≠ []
     ∧ (∃ n, lstat fs p = Some n ∧ n ≠ Dir) ∧ parent p ∉ fs_readonly fs)
  ∨ (path_unlink missing_ok p fs = inr fs ∧ lstat fs p = None ∧ missing_ok = true)
  ∨ (∃ e, path_unlink missing_ok p fs = inl e ∧ is_OSError e = true
       ∧ (lstat fs p = None ∧ missing_ok = false
          ∨ lstat fs p = Some Dir
          ∨ parent p ∈ fs_readonly fs)).
Proof.
  unfold path_unlink.
  destruct (lstat fs p) as [[|c m|t]|] eqn:E.
  - right. right. eexists. split_and!; eauto.
  - case_decide.
    + right. right. eexists. split_and!; eauto.
    + left. split_and!; eauto. by intros ->.
  - case_decide.
    + right. right. eexists. split_and!; eauto.
    + left. split_and!; eauto. by intros ->.
  - destruct missing_ok.
    + right. left. done.
    + right. right. eexists. split_and!; eauto.
Qed.



(** The askpass part of [cleanup], run on its own. *)
Lemma cleanup_askpass_part fs wp p tr :
  ∃ fs',
    (try_except (unlink true p) is_Exception (λ _, ret tt) >> set_askpass None)
      (State fs wp (Some p) tr)
    = (State fs' wp None (tr ++ [EvUnlink p]), Ok tt)
    ∧ (fs' = fs ∨ (fs' = remove_node p fs ∧ p ≠ []))
    ∧ (∀ n, lstat fs p = Some n → n ≠ Dir → parent p ∉ fs_readonly fs →
         fs' = remove_node p fs ∧ p ≠ []).
Proof.
  mrun.
  destruct (path_unlink_cases true p fs)
    as [(-> & Hp & Hn & Hro)|[(-> & Hn & _)|(e & -> & _ & Hwhy)]]; simpl.
  - eexists. split_and!; [done|by right|done].
  - eexists. split_and!; [done|by left|]. congruence.
  - eexists. split_and!; [done|by left|].
    intros n Hn Hd Hro. destruct Hwhy as [[? ?]|[?|?]]; [done|congruence|done].
Qed.




(** ** The persistence link *)

Lemma path_exists_not_link fs p n :
  lstat fs p = Some n → (∀ t, n ≠ Symlink t) → path_exists fs p = true.
Proof.
  intros Hn Hl. unfold path_exists, stat.
  rewrite resolve_not_link by (intros t; rewrite Hn; intros [= ->]; by destruct (Hl t)).
  rewrite Hn. by apply bool_decide_eq_true_2.
Qed.

(** C3, where the code departs from it. When [system_claude_home] is a
    regular file, [_setup_session_persistence] does not return: it raises
    (from [shutil.rmtree], which refuses a file, unless creating the
    persistent directory failed before) and the file stays in place, no link
    being made. *)
Theorem setup_session_persistence_keeps_file (self : manager) (st : state)
    (c : string) (m : N) :
  lstat (st_fs st) (system_claude_home self) = Some (File c m) →
  ∃ st' e,
    setup_session_persistence self st = (st', Raise e)
    ∧ lstat (st_fs st') (system_claude_home self) = Some (File c m)
    ∧ (∀ st1, mkdir false true (persistent_claude_data self) st = (st1, Ok tt) →
         e = os_error NotADirectoryError (system_claude_home self)
         ∧ st_fs st' = st_fs st1).
Proof.
  intros Hfile. unfold setup_session_persistence.
  destruct (mkdir false true (persistent_claude_data self) st) as [st1 [[]|e]] eqn:E1;
    pose proof (mkdir_grows _ _ _ _ _ _ E1) as (Hg & _);
    (assert (Hfile1 : lstat (st_fs st1) (system_claude_home self) = Some (File c m))
      by (destruct (Hg (system_claude_home self)) as [?|[? _]]; congruence)).
  - rewrite (bind_ok _ _ _ _ _ E1).
    unfold bind at 1. unfold query at 1.
    rewrite (path_exists_not_link _ _ _ Hfile1) by done. simpl.
    mrun. unfold path_is_symlink, shutil_rmtree.
    rewrite Hfile1. simpl. rewrite Hfile1. simpl.
    eexists _, _. split_and!; [done|done|]. by intros st2 [= <-].
  - rewrite (bind_raise _ _ _ _ _ E1). eexists _, _. split_and!; [done|done|done].
Qed.

Lemma setup_session_persistence_keeps_file_witness :
  ∃ st', setup_session_persistence Sim.self Sim.st_home_file
         = (st', Raise (os_error NotADirectoryError ["root"; ".claude"]))
       ∧ lstat (st_fs st') ["root"; ".claude"] = Some (File "{}" 420).
Proof.
  destruct (setup_session_persistence_keeps_file Sim.self Sim.st_home_file "{}" 420)
    as (st' & e & H1 & H2 & H3).
  { vm_compute. reflexivity. }
  exists st'. split; [|exact H2].
  destruct (H3 (mkdir false true (persistent_claude_data Sim.self) Sim.st_home_file).1)
    as [He _]; [vm_compute; reflexivity|].
  rewrite H1, He. reflexivity.
Defined.

(** The three prior states the method provides for: nothing, a link and a
    directory at [system_claude_home] all end in the link. *)
Example setup_session_persistence_absent :
  ∃ st', setup_session_persistence Sim.self Sim.st0 = (st', Ok tt)
       ∧ lstat (st_fs st') ["root"; ".claude"] = Some (Symlink ["workspace"; ".claude_data"])
       ∧ lstat (st_fs st') ["workspace"; ".claude_data"] = Some Dir.
Proof. eexists. split_and!; vm_compute; reflexivity. Qed.

Example setup_session_persistence_link :
  ∃ st', setup_session_persistence Sim.self Sim.st_linked = (st', Ok tt)
       ∧ lstat (st_fs st') ["root"; ".claude"] = Some (Symlink ["workspace"; ".claude_data"]).
Proof. eexists. split_and!; vm_compute; reflexivity. Qed.

Example setup_session_persistence_directory :
  ∃ st', setup_session_persistence Sim.self
           (State (FileSys (<[ ["root"; ".claude"; "settings.json"] := File "{}" 420 ]>
                              (<[ ["root"; ".claude"] := Dir ]> (fs_nodes Sim.fs0))) ∅)
                  ["workspace"] None [])
         = (st', Ok tt)
       ∧ lstat (st_fs st') ["root"; ".claude"] = Some (Symlink ["workspace"; ".claude_data"])
       ∧ lstat (st_fs st') ["root"; ".claude"; "settings.json"] = None.
Proof. eexists. split_and!; vm_compute; reflexivity. Qed.

(** ** The convergence engine *)

Definition returned {A} (x : exn + A) : bool :=
  match x with
  | inr _ => true
  | inl _ => false
  end.


(** The error [_checkout_branch] raises for [exc]. *)
Definition checkout_error (b : string) (p : path) (exc : exn) : exn :=
  if is_git_or_os_error exc then
    Exn RuntimeError ("Failed to checkout branch '" +:+ b +:+ "' for repo at " +:+ path_str p
                      +:+ ". " +:+ compact (exn_msg exc))
  else exc.

(** The error [_ensure_cloned_repo] raises for [exc]. *)
Definition clone_error (url : string) (exc : exn) : exn :=
  if is_git_or_os_error exc then
    Exn RuntimeError ("Failed to clone repository: " +:+ url +:+ ". " +:+ compact (exn_msg exc))
  else exc.

Lemma checkout_branch_skip G p b env st :
  Py.truthy b = false → checkout_branch G p b env st = (st, Ok tt).
Proof.
  unfold checkout_branch, Py.truthy. destruct b as [b|]; [|done].
  intros ->%negb_false_iff. done.
Qed.

(** With a branch, [fetch] is called on [origin] and the branch as given,
    and [checkout] on the same branch once [fetch] has returned. *)
Lemma checkout_branch_run G p b env st :
  b ≠ EmptyString →
  checkout_branch G p (Some b) env st =
    let f := fetch G "origin" b p env (st_fs st) in
    match f.2 with
    | inl e =>
        (State f.1 (st_work_path st) (st_askpass st)
               (st_trace st ++ [EvFetch "origin" b p env]),
         Raise (checkout_error b p e))
    | inr _ =>
        let c := checkout G b p f.1 in
        (State c.1 (st_work_path st) (st_askpass st)
               (st_trace st ++ [EvFetch "origin" b p env; EvCheckout b p]),
         match c.2 with
         | inl e => Raise (checkout_error b p e)
         | inr _ => Ok tt
         end)
    end.
Proof.
  intros Hb. unfold checkout_branch, checkout_error.
  rewrite bool_decide_eq_false_2 by done. mrun.
  destruct (fetch G "origin" b p env (st_fs st)) as [fs1 [e|[]]]; simpl.
  - by destruct (is_git_or_os_error e).
  - rewrite <- app_assoc. simpl.
    destruct (checkout G b p fs1) as [fs2 [e|[]]]; simpl; [|done].
    by destruct (is_git_or_os_error e).
Qed.


Lemma ensure_cloned_repo_after_env G P self url branch tok st st1 env :
  build_git_env P url tok st = (st1, Ok env) →
  let repo_path := derive_repo_path (root_path self) url in
  ensure_cloned_repo G P self url branch tok st =
    if path_exists (st_fs st1) repo_path && is_repository G (st_fs st1) repo_path
    then (checkout_branch G repo_path branch env >> ret repo_path) st1
    else if path_exists (st_fs st1) repo_path
            && negb (is_repository G (st_fs st1) repo_path)
    then (st1, Raise (Exn RuntimeError
            ("Target path exists but is not a git repository: " +:+ path_str repo_path)))
    else try_except (call_clone G url repo_path branch env) is_git_or_os_error
           (λ exc, raise (clone_error url exc)) st1.
Proof.
  intros Henv repo_path. unfold ensure_cloned_repo, derive_repo_path_self.
  fold repo_path. rewrite (bind_ok _ _ _ _ _ Henv).
  unfold bind at 1. unfold query at 1.
  destruct (path_exists (st_fs st1) repo_path && is_repository G (st_fs st1) repo_path);
    [done|].
  unfold bind at 1. unfold query at 1.
  destruct (path_exists (st_fs st1) repo_path && negb (is_repository G (st_fs st1) repo_path));
    [done|].
  unfold try_except, clone_error, raise.
  destruct (call_clone G url repo_path branch env st1) as [st2 [p|e]]; [done|].
  by destruct (is_git_or_os_error e).
Qed.

Lemma call_clone_run G url p branch env st :
  call_clone G url p branch env st =
    let c := clone G url p branch env (st_fs st) in
    (State c.1 (st_work_path st) (st_askpass st) (st_trace st ++ [EvClone url p branch env]),
     match c.2 with
     | inr q => Ok q
     | inl e => Raise e
     end).
Proof. mrun. by destruct (clone G url p branch env (st_fs st)) as [fs' [e|q]]. Qed.

Lemma prepare_repository_with_url G P self config st :
  or_empty_strip (repo_url config) ≠ EmptyString →
  prepare_repository G P self config st =
    ensure_cloned_repo G P self (or_empty_strip (repo_url config)) (git_branch config)
      (if bool_decide (or_empty_strip (git_token config) = EmptyString) then None
       else Some (or_empty_strip (git_token config))) st.
Proof. intros H. unfold prepare_repository. by rewrite bool_decide_eq_false_2. Qed.



(** C10. An empty [git_branch] counts as no branch: [_checkout_branch]
    returns at once, and for an existing repository [_prepare_repository]
    calls neither [fetch] nor [checkout]. Any other string, a blank one such
    as a single space included, is a branch: it reaches [fetch] and
    [checkout] exactly as configured, the branch never being trimmed. *)
Theorem branch_empty_skipped_blank_passed (G : git_layer) (P : platform) (self : manager)
    (config : TaskConfig) (st st1 : state) (env : gmap string string) :
  let url := or_empty_strip (repo_url config) in
  let token := or_empty_strip (git_token config) in
  let repo_path := derive_repo_path (root_path self) url in
  url ≠ EmptyString →
  build_git_env P url (if bool_decide (token = EmptyString) then None else Some token) st
    = (st1, Ok env) →
  path_exists (st_fs st1) repo_path = true →
  is_repository G (st_fs st1) repo_path = true →
  (∀ p e s, checkout_branch G p (Some EmptyString) e s = (s, Ok tt))
  ∧ (git_branch config = Some EmptyString →
       prepare_repository G P self config st = (st1, Ok repo_path))
  ∧ (∀ b, git_branch config = Some b → b ≠ EmptyString →
       let f := fetch G "origin" b repo_path env (st_fs st1) in
       ∃ st2 r,
         prepare_repository G P self config st = (st2, r)
         ∧ st_trace st2
           = st_trace st1 ++ EvFetch "origin" b repo_path env
                               :: (if returned f.2 then [EvCheckout b repo_path] else []))
  ∧ Py.strip " " = EmptyString ∧ Py.truthy (Some " ") = true.
Proof.
  intros url token repo_path Hurl Henv Hex Hrepo.
  split; [intros p e s; by apply checkout_branch_skip|].
  assert (Hrun : prepare_repository G P self config st =
    (checkout_branch G repo_path (git_branch config) env >> ret repo_path) st1).
  { rewrite prepare_repository_with_url by done. fold url token.
    rewrite (ensure_cloned_repo_after_env _ _ _ _ _ _ _ _ _ Henv). fold repo_path.
    by rewrite Hex, Hrepo. }
  split_and!; [| |done|done].
  - intros Hb. rewrite Hrun, Hb. unfold bind.
    by rewrite checkout_branch_skip.
  - intros b Hb Hne. rewrite Hrun, Hb. unfold bind.
    rewrite checkout_branch_run by done. simpl.
    destruct (fetch G "origin" b repo_path env (st_fs st1)) as [fs1 [e|[]]]; simpl.
    + by eexists _, _.
    + destruct (checkout G b repo_path fs1) as [fs2 [e|[]]]; simpl; by eexists _, _.
Qed.

Lemma branch_empty_skipped_blank_passed_witness :
  ∃ st2 r,
    prepare_repository Sim.git Sim.host Sim.self (Sim.cfg_demo (Some " ")) Sim.st_cloned = (st2, r)
    ∧ git_calls (st_trace st2)
      = [EvFetch "origin" " " ["workspace"; "demo"] (with_credentials Sim.askpass_file "abc");
         EvCheckout " " ["workspace"; "demo"]].
Proof.
  destruct (branch_empty_skipped_blank_passed Sim.git Sim.host Sim.self (Sim.cfg_demo (Some " "))
              Sim.st_cloned
              (build_git_env Sim.host Sim.demo_url (Some "abc") Sim.st_cloned).1
              (with_credentials Sim.askpass_file "abc"))
    as (_ & _ & Hblank & _).
  { vm_compute. discriminate. }
  { vm_compute. reflexivity. }
  { vm_compute. reflexivity. }
  { vm_compute. reflexivity. }
  destruct (Hblank " " eq_refl) as (st2 & r & Hrun & Htrace); [discriminate|].
  exists st2, r. split; [exact Hrun|].
  rewrite Htrace. vm_compute. reflexivity.
Defined.

(** ** The calls a computation makes *)

(** [m] only appends to the trace, and what it appends satisfies [Q]. *)
Definition emits {A} (Q : event → Prop) (m : M A) : Prop :=
  ∀ st st' r, m st = (st', r) → ∃ t, st_trace st' = st_trace st ++ t ∧ Forall Q t.

Lemma emits_nothing {A} (Q : event → Prop) (m : M A) :
  (∀ st st' r, m st = (st', r) → st_trace st' = st_trace st) → emits Q m.
Proof. intros H st st' r Hm. exists []. rewrite app_nil_r. eauto. Qed.

Section Emits.

Context {A B : Type} (Q : event → Prop).

Lemma emits_ret (a : A) : emits Q (ret a).
Proof. apply emits_nothing. by intros st st' r [= <- _]. Qed.

Lemma emits_raise e : emits Q (raise (A:=A) e).
Proof. apply emits_nothing. by intros st st' r [= <- _]. Qed.

Lemma emits_query (f : filesys → A) : emits Q (query f).
Proof. apply emits_nothing. by intros st st' r [= <- _]. Qed.

Lemma emits_get_askpass : emits Q get_askpass.
Proof. apply emits_nothing. by intros st st' r [= <- _]. Qed.

Lemma emits_set_askpass o : emits Q (set_askpass o).
Proof. apply emits_nothing. by intros st st' r [= <- _]. Qed.

Lemma emits_set_work_path p : emits Q (set_work_path p).
Proof. apply emits_nothing. by intros st st' r [= <- _]. Qed.

Lemma emits_read_text p : emits Q (read_text p).
Proof.
  apply emits_nothing. unfold read_text. intros st st' r.
  by destruct (path_read_text p (st_fs st)); intros [= <- _].
Qed.

Lemma emits_update f : emits Q (update f).
Proof.
  apply emits_nothing. unfold update. intros st st' r.
  by destruct (f (st_fs st)); intros [= <- _].
Qed.

Lemma emits_perform (f : filesys → filesys * (exn + A)) : emits Q (perform f).
Proof.
  apply emits_nothing. unfold perform. intros st st' r.
  by destruct (f (st_fs st)) as [fs' [e|a]]; intros [= <- _].
Qed.

Lemma emits_log e : Q e → emits Q (log e).
Proof.
  intros He st st' r [= <- _]. exists [e]. split; [done|]. by constructor.
Qed.

Lemma emits_bind (m : M A) (k : A → M B) :
  emits Q m → (∀ a, emits Q (k a)) → emits Q (bind m k).
Proof.
  intros Hm Hk st st' r. unfold bind.
  destruct (m st) as [st1 [a|e]] eqn:E; destruct (Hm _ _ _ E) as (t1 & Ht1 & Hq1).
  - intros H2. destruct (Hk a _ _ _ H2) as (t2 & Ht2 & Hq2).
    exists (t1 ++ t2). rewrite Ht2, Ht1, app_assoc. split; [done|].
    by apply Forall_app.
  - intros [= <- _]. eauto.
Qed.

Lemma emits_try (m : M A) c h :
  emits Q m → (∀ e, emits Q (h e)) → emits Q (try_except m c h).
Proof.
  intros Hm Hh st st' r. unfold try_except.
  destruct (m st) as [st1 [a|e]] eqn:E; destruct (Hm _ _ _ E) as (t1 & Ht1 & Hq1).
  - intros [= <- _]. eauto.
  - destruct (c e).
    + intros H2. destruct (Hh e _ _ _ H2) as (t2 & Ht2 & Hq2).
      exists (t1 ++ t2). rewrite Ht2, Ht1, app_assoc. split; [done|].
      by apply Forall_app.
    + intros [= <- _]. eauto.
Qed.

End Emits.

Lemma emits_weaken {A} (Q Q' : event → Prop) (m : M A) :
  (∀ e, Q e → Q' e) → emits Q m → emits Q' m.
Proof.
  intros HQ Hm st st' r H. destruct (Hm _ _ _ H) as (t & Ht & Hq).
  exists t. split; [done|]. eapply Forall_impl; eauto.
Qed.

Create HintDb emits.

(** Walk through a computation built from the primitives. *)
Ltac emits_step :=
  first
    [ solve [auto with emits nocore]
    | apply emits_bind; [|intros ?]
    | apply emits_try; [|intros ?]
    | apply emits_ret | apply emits_raise | apply emits_query
    | apply emits_get_askpass | apply emits_set_askpass | apply emits_set_work_path
    | apply emits_read_text | apply emits_update | apply emits_perform
    | apply emits_log; simpl
    | match goal with
      | |- emits _ (if ?b then _ else _) => destruct b
      | |- emits _ (match ?x with _ => _ end) => destruct x
      end ].

Ltac emits_auto :=
  unfold mkdir, unlink, rmtree, symlink_to, write_text, chmod, warning, make_temp,
    call_is_repository, call_clone, call_init_repository, call_fetch, call_checkout;
  repeat emits_step.

Lemma emits_make_temp_tail Q dir pre names :
  emits Q (λ st, match mkstemp dir pre names (st_fs st) with
                 | inr (p, fs') => (with_fs fs' st, Ok p)
                 | inl e => (st, Raise e)
                 end).
Proof.
  apply emits_nothing. intros st st' r.
  by destruct (mkstemp dir pre names (st_fs st)) as [e|[p fs']]; intros [= <- _].
Qed.

(** The calls of the inputs linker for the working directory [wp]. *)
Definition inputs_call (self : manager) (wp : path) (e : event) : Prop :=
  match e with
  | EvMkdir p => p = inputs_root self
  | EvSymlink p t => p = path_join wp "inputs" ∧ t = inputs_root self
  | EvWarning _ => True
  | _ => False
  end.

(** The calls of the exclude-file maintainer for the working directory. *)
Definition exclude_call (wp : path) (e : event) : Prop :=
  let exclude_path := path_join (path_join (path_join wp ".git") "info") "exclude" in
  match e with
  | EvMkdir p => p = parent exclude_path
  | EvWrite p _ => p = exclude_path
  | EvWarning _ => True
  | _ => False
  end.

(** The calls of the persistence linker. *)
Definition persistence_call (self : manager) (e : event) : Prop :=
  match e with
  | EvMkdir p => p = persistent_claude_data self
  | EvUnlink p | EvRmtree p => p = system_claude_home self
  | EvSymlink p t => p = system_claude_home self ∧ t = persistent_claude_data self
  | _ => False
  end.

(** The calls of the repository resolver: git operations and the making of
    the askpass helper. *)
Definition repository_call (e : event) : Prop :=
  match e with
  | EvClone _ _ _ _ | EvInit _ | EvFetch _ _ _ _ | EvCheckout _ _ => True
  | EvMkstemp _ | EvWrite _ _ | EvChmod _ _ | EvWarning _ => True
  | _ => False
  end.

Lemma emits_ensure_inputs_dir self wp :
  emits (inputs_call self wp) (ensure_inputs_dir self wp).
Proof. unfold ensure_inputs_dir. emits_auto; done. Qed.

Lemma emits_ensure_git_excludes G P wp :
  emits (exclude_call wp) (ensure_git_excludes G P wp).
Proof. unfold ensure_git_excludes. emits_auto; done. Qed.

Lemma emits_setup_session_persistence self :
  emits (persistence_call self) (setup_session_persistence self).
Proof. unfold setup_session_persistence. emits_auto; done. Qed.

#[local] Hint Resolve emits_make_temp_tail : emits.

Lemma emits_ensure_git_askpass P : emits repository_call (ensure_git_askpass P).
Proof. unfold ensure_git_askpass. emits_auto; done. Qed.

#[local] Hint Resolve emits_ensure_git_askpass : emits.

Lemma emits_build_git_env P url tok : emits repository_call (build_git_env P url tok).
Proof. unfold build_git_env. emits_auto; done. Qed.

#[local] Hint Resolve emits_build_git_env : emits.

Lemma emits_prepare_repository G P self config :
  emits repository_call (prepare_repository G P self config).
Proof.
  unfold prepare_repository, ensure_cloned_repo, ensure_git_repo, checkout_branch.
  emits_auto; done.
Qed.

(** ** The order of the phases of [prepare] *)

(** The opening statement of [prepare]: a missing root is created. *)
Definition ensure_root (self : manager) : M unit :=
  let! there := query (λ fs, path_exists fs (root_path self)) in
  if negb there then mkdir true true (root_path self) else ret tt.

Lemma prepare_unfold G P self config st :
  prepare G P self config st =
    (ensure_root self >>
     setup_session_persistence self >>
     let! wp := prepare_repository G P self config in
     set_work_path wp >>
     ensure_inputs_dir self wp >>
     ensure_git_excludes G P wp) st.
Proof. unfold prepare, ensure_root. symmetry. apply bind_assoc. Qed.

(** C9, as the code has it. After the root is there, [prepare] runs the
    persistence linker, then the repository resolver, then the
    inputs-directory linker and the exclude-file maintainer last, each phase
    starting in the state the one before left; a phase that raises ends
    [prepare]. The calls of the four phases appear in the trace in that
    order. *)
Theorem prepare_phase_order (G : git_layer) (P : platform) (self : manager)
    (config : TaskConfig) (st s0 s1 : state) :
  ensure_root self st = (s0, Ok tt) →
  setup_session_persistence self s0 = (s1, Ok tt) →
  ∃ t1 t2, st_trace s1 = st_trace s0 ++ t1 ∧ Forall (persistence_call self) t1
  ∧ match prepare_repository G P self config s1 with
    | (s2, Raise e) =>
        prepare G P self config st = (s2, Raise e)
        ∧ st_trace s2 = st_trace s0 ++ t1 ++ t2 ∧ Forall repository_call t2
    | (s2, Ok wp) =>
        ∃ s3 s4 r t3 t4,
          ensure_inputs_dir self wp (set_work_path wp s2).1 = (s3, Ok tt)
          ∧ ensure_git_excludes G P wp s3 = (s4, r)
          ∧ prepare G P self config st = (s4, r)
          ∧ st_trace s2 = st_trace s0 ++ t1 ++ t2
          ∧ st_trace s4 = st_trace s0 ++ t1 ++ t2 ++ t3 ++ t4
          ∧ Forall repository_call t2
          ∧ Forall (inputs_call self wp) t3
          ∧ Forall (exclude_call wp) t4
    end.
Proof.
  intros H0 H1.
  destruct (emits_setup_session_persistence self _ _ _ H1) as (t1 & Ht1 & Hq1).
  destruct (prepare_repository G P self config s1) as [s2 r2] eqn:H2.
  destruct (emits_prepare_repository G P self config _ _ _ H2) as (t2 & Ht2 & Hq2).
  exists t1, t2. split_and!; [done|done|].
  rewrite prepare_unfold.
  rewrite (bind_ok _ _ _ _ _ H0), (bind_ok _ _ _ _ _ H1).
  destruct r2 as [wp|e].
  - rewrite (bind_ok _ _ _ _ _ H2).
    assert (Hsw : set_work_path wp s2 = ((set_work_path wp s2).1, Ok tt)) by done.
    rewrite (bind_ok _ _ _ _ _ Hsw).
    destruct (ensure_inputs_dir_cases self wp (set_work_path wp s2).1)
      as (s3 & fs1 & H3 & _ & _).
    destruct (emits_ensure_inputs_dir self wp _ _ _ H3) as (t3 & Ht3 & Hq3).
    destruct (ensure_git_excludes G P wp s3) as [s4 r] eqn:H4.
    destruct (emits_ensure_git_excludes G P wp _ _ _ H4) as (t4 & Ht4 & Hq4).
    exists s3, s4, r, t3, t4.
    rewrite (bind_ok _ _ _ _ _ H3), H4.
    split_and!; try done.
    + by rewrite Ht2, Ht1, <- app_assoc.
    + simpl in Ht3. by rewrite Ht4, Ht3, Ht2, Ht1, <- !app_assoc.
  - rewrite (bind_raise _ _ _ _ _ H2). split_and!; try done.
    by rewrite Ht2, Ht1, <- app_assoc.
Qed.

Lemma prepare_phase_order_witness :
  ∃ s4, prepare Sim.git Sim.host Sim.self (Sim.cfg_demo (Some "main")) Sim.st0 = (s4, Ok tt)
      ∧ st_work_path s4 = ["workspace"; "demo"].
Proof.
  pose proof (prepare_phase_order Sim.git Sim.host Sim.self (Sim.cfg_demo (Some "main"))
    Sim.st0 Sim.st0 (setup_session_persistence Sim.self Sim.st0).1) as H.
  destruct H as (t1 & t2 & _ & _ & H).
  { vm_compute. reflexivity. }
  { vm_compute. reflexivity. }
  assert (Hok : (prepare Sim.git Sim.host Sim.self (Sim.cfg_demo (Some "main")) Sim.st0).2
                = Ok tt) by (vm_compute; reflexivity).
  assert (Hwp : st_work_path
                  (prepare Sim.git Sim.host Sim.self (Sim.cfg_demo (Some "main")) Sim.st0).1
                = ["workspace"; "demo"]) by (vm_compute; reflexivity).
  destruct (prepare_repository _ _ _ _ _) as [s2 [wp|e]].
  - destruct H as (s3 & s4 & r & t3 & t4 & _ & _ & Hrun & _).
    rewrite Hrun in Hok, Hwp. cbn [fst snd] in Hok, Hwp. subst r.
    exists s4. split; [exact Hrun|exact Hwp].
  - destruct H as (Hrun & _). rewrite Hrun in Hok. discriminate Hok.
Defined.

(** The order the specification gives differs from the one [prepare] has:
    where the exclude-file maintainer raises, [prepare] has made the inputs
    link already, the order of the specification has not. *)
Lemma prepare_differs_from_spec_order :
  lstat (st_fs (prepare Sim.git Sim.host Sim.self (Sim.cfg_demo None) Sim.st_info_file).1)
        ["workspace"; "demo"; "inputs"]
    = Some (Symlink ["workspace"; "inputs"])
  ∧ lstat (st_fs (prepare_spec_order Sim.git Sim.host Sim.self (Sim.cfg_demo None)
                    Sim.st_info_file).1)
          ["workspace"; "demo"; "inputs"]
    = None
  ∧ prepare Sim.git Sim.host Sim.self (Sim.cfg_demo None) Sim.st_info_file
    ≠ prepare_spec_order Sim.git Sim.host Sim.self (Sim.cfg_demo None) Sim.st_info_file.
Proof.
  assert (H1 : lstat (st_fs (prepare Sim.git Sim.host Sim.self (Sim.cfg_demo None)
                 Sim.st_info_file).1) ["workspace"; "demo"; "inputs"]
               = Some (Symlink ["workspace"; "inputs"])) by (vm_compute; reflexivity).
  assert (H2 : lstat (st_fs (prepare_spec_order Sim.git Sim.host Sim.self (Sim.cfg_demo None)
                 Sim.st_info_file).1) ["workspace"; "demo"; "inputs"] = None)
    by (vm_compute; reflexivity).
  split_and!; [done|done|].
  intros E. rewrite E in H1. congruence.
Qed.

(** ** Lines of text *)

Definition no_lb (s : string) : Prop :=
  Py.all_chars (λ c, negb (Py.islinebreak c)) s = true.

Definition no_cr (s : string) : Prop := Py.has_char Py.CR s = false.

(** [s] is empty or ends with a line boundary. *)
Fixpoint ends_lb (s : string) : bool :=
  match s with
  | EmptyString => true
  | String a s' =>
      match s' with
      | EmptyString => Py.islinebreak a
      | String _ _ => ends_lb s'
      end
  end.

Section Lines.

Lemma app_cons a s t : String a s +:+ t = String a (s +:+ t).
Proof. done. Qed.

Lemma app_empty t : EmptyString +:+ t = t.
Proof. done. Qed.

Lemma app_empty_r s : s +:+ EmptyString = s.
Proof. induction s as [|a s IH]; [done|]. by rewrite app_cons, IH. Qed.

Lemma app_assoc_str s t u : (s +:+ t) +:+ u = s +:+ (t +:+ u).
Proof. induction s as [|a s IH]; [done|]. by rewrite !app_cons, IH. Qed.

Lemma has_char_app c s t :
  Py.has_char c (s +:+ t) = Py.has_char c s || Py.has_char c t.
Proof.
  induction s as [|a s IH]; [done|].
  rewrite app_cons. simpl. by rewrite IH, orb_assoc.
Qed.

Lemma no_lb_no_cr s : no_lb s → no_cr s.
Proof.
  unfold no_lb, no_cr. induction s as [|a s IH]; [done|]. simpl.
  intros [Ha Hs]%andb_true_iff. rewrite IH by done.
  rewrite bool_decide_eq_false_2; [done|]. intros ->. done.
Qed.

Lemma no_cr_cons a s : no_cr (String a s) ↔ a ≠ Py.CR ∧ no_cr s.
Proof.
  unfold no_cr. simpl. rewrite orb_false_iff, bool_decide_eq_false. done.
Qed.

Lemma no_cr_app s t : no_cr (s +:+ t) ↔ no_cr s ∧ no_cr t.
Proof. unfold no_cr. by rewrite has_char_app, orb_false_iff. Qed.

Lemma no_lb_cons a s : no_lb (String a s) ↔ Py.islinebreak a = false ∧ no_lb s.
Proof. unfold no_lb. simpl. by rewrite andb_true_iff, negb_true_iff. Qed.

Lemma splitlines_cons a s :
  a ≠ Py.CR →
  Py.splitlines (String a s) =
    if Py.islinebreak a then EmptyString :: Py.splitlines s
    else Py.cons_line a (Py.splitlines s).
Proof.
  intros Ha. simpl. destruct (Py.islinebreak a); [|done].
  destruct s as [|b s]; [done|]. by rewrite bool_decide_eq_false_2.
Qed.

Lemma splitlines_not_nil s : s ≠ EmptyString → Py.splitlines s ≠ [].
Proof.
  destruct s as [|a s]; [done|]. intros _. simpl.
  destruct (Py.islinebreak a); [done|]. by destruct (Py.splitlines s).
Qed.

Lemma cons_line_app a l k : l ≠ [] → Py.cons_line a (l ++ k) = Py.cons_line a l ++ k.
Proof. by destruct l. Qed.

Lemma app_not_empty s a t : s +:+ String a t ≠ EmptyString.
Proof. by destruct s. Qed.

(** A line feed behind [t] closes its last line, or opens an empty one when
    [t] is closed already. *)
Lemma splitlines_snoc_lf t :
  no_cr t →
  Py.splitlines (t +:+ LF) = Py.splitlines t ++ (if ends_lb t then [EmptyString] else []).
Proof.
  induction t as [|a t IH]; [done|].
  intros [Ha Ht]%no_cr_cons. rewrite app_cons, !splitlines_cons, IH by done.
  destruct (Py.islinebreak a) eqn:Hlb.
  - simpl. destruct t; [|done]. by rewrite Hlb.
  - destruct t as [|b t].
    + simpl. by rewrite Hlb.
    + rewrite cons_line_app; [done|]. by apply splitlines_not_nil.
Qed.

Lemma splitlines_lf_app x y :
  no_cr x →
  Py.splitlines (x +:+ LF +:+ y) = Py.splitlines (x +:+ LF) ++ Py.splitlines y.
Proof.
  induction x as [|a x IH].
  - intros _. rewrite !app_empty. unfold LF. rewrite app_cons, app_empty.
    by rewrite splitlines_cons.
  - intros [Ha Hx]%no_cr_cons. rewrite !app_cons, !splitlines_cons, IH by done.
    destruct (Py.islinebreak a); [done|].
    rewrite cons_line_app; [done|]. apply splitlines_not_nil, app_not_empty.
Qed.

Lemma splitlines_line x : no_lb x → Py.splitlines (x +:+ LF) = [x].
Proof.
  induction x as [|a x IH]; [done|].
  intros [Ha Hx]%no_lb_cons. rewrite app_cons, splitlines_cons.
  - by rewrite Ha, IH.
  - intros ->. done.
Qed.

Lemma splitlines_join l :
  Forall no_lb l → l ≠ [] → Py.splitlines (Py.join LF l +:+ LF) = l.
Proof.
  induction 1 as [|x l Hx Hl IH]; [done|]. intros _.
  destruct l as [|y l].
  - simpl. by apply splitlines_line.
  - change (Py.join LF (x :: y :: l)) with (x +:+ LF +:+ Py.join LF (y :: l)).
    rewrite !app_assoc_str.
    rewrite splitlines_lf_app by (by apply no_lb_no_cr).
    rewrite splitlines_line by done. rewrite IH; done.
Qed.

Lemma endswith_LF_inv s : Py.endswith LF s = true → ∃ s0, s = s0 +:+ LF.
Proof.
  induction s as [|a s IH]; simpl; [done|].
  - intros [H%bool_decide_eq_true|H]%orb_true_iff.
    + exists EmptyString. done.
    + destruct (IH H) as [s0 ->]. by exists (String a s0).
Qed.

Lemma universal_newlines_no_cr s : no_cr (universal_newlines s).
Proof.
  assert (H : ∀ n s, String.length s ≤ n → no_cr (universal_newlines s)).
  { clear s. induction n as [|n IH]; intros [|a s] Hlen; simpl in *; try done; [lia|].
    case_bool_decide as Ha.
    - apply no_cr_cons. split; [done|].
      destruct s as [|b s]; [done|]. simpl in Hlen.
      case_bool_decide; apply IH; simpl; lia.
    - apply no_cr_cons. split; [done|]. apply IH. lia. }
  by apply (H (String.length s)).
Qed.

Lemma universal_newlines_id s : no_cr s → universal_newlines s = s.
Proof.
  induction s as [|a s IH]; [done|].
  intros [Ha Hs]%no_cr_cons. simpl. rewrite bool_decide_eq_false_2 by done.
  by rewrite IH.
Qed.

End Lines.

(** ** Candidate patterns *)

(** A pattern as the maintainer writes it: stripped, not empty and on one
    line. *)
Definition clean_pattern (p : string) : Prop :=
  Py.strip p = p ∧ p ≠ EmptyString ∧ no_lb p.

Section Patterns.

Lemma rstrip_idem s : Py.rstrip (Py.rstrip s) = Py.rstrip s.
Proof.
  induction s as [|a s IH]; [done|]. simpl.
  destruct (Py.isspace a) eqn:Ha.
  - case_decide as Hr; [done|]. simpl. rewrite Ha, IH. by rewrite decide_False.
  - simpl. by rewrite Ha, IH.
Qed.

Lemma lstrip_head s :
  Py.lstrip s = EmptyString
  ∨ ∃ a t, Py.lstrip s = String a t ∧ Py.isspace a = false.
Proof.
  induction s as [|a s IH]; [by left|]. simpl.
  destruct (Py.isspace a) eqn:Ha; [done|]. right. eauto.
Qed.

Lemma strip_idem s : Py.strip (Py.strip s) = Py.strip s.
Proof.
  unfold Py.strip. destruct (lstrip_head s) as [->|(a & t & -> & Ha)]; [done|].
  simpl. rewrite Ha. simpl. rewrite Ha. simpl. rewrite Ha. by rewrite rstrip_idem.
Qed.

Lemma no_lb_lstrip s : no_lb s → no_lb (Py.lstrip s).
Proof.
  induction s as [|a s IH]; [done|]. intros H. simpl.
  destruct (Py.isspace a); [|done]. apply IH. by apply no_lb_cons in H as [_ ?].
Qed.

Lemma no_lb_rstrip s : no_lb s → no_lb (Py.rstrip s).
Proof.
  induction s as [|a s IH]; [done|]. intros [Ha Hs]%no_lb_cons. simpl.
  destruct (Py.isspace a); [case_decide; [done|]|]; apply no_lb_cons; auto.
Qed.

Lemma no_lb_strip s : no_lb s → no_lb (Py.strip s).
Proof. intros H. by apply no_lb_rstrip, no_lb_lstrip. Qed.

Lemma no_lb_cons_line a l :
  Py.islinebreak a = false → Forall no_lb l → Forall no_lb (Py.cons_line a l).
Proof.
  intros Ha [|h t Hh Ht]; simpl; constructor; try done; by apply no_lb_cons.
Qed.

Lemma splitlines_no_lb s : Forall no_lb (Py.splitlines s).
Proof.
  assert (H : ∀ n s, String.length s ≤ n → Forall no_lb (Py.splitlines s)).
  { clear s. induction n as [|n IH]; intros [|a s] Hlen; simpl in *;
      try (by constructor); [lia|].
    destruct (Py.islinebreak a) eqn:Ha.
    - constructor; [done|]. destruct s as [|b s]; [by constructor|]. simpl in Hlen.
      destruct (_ && _); apply IH; simpl; lia.
    - apply no_lb_cons_line; [done|]. apply IH. lia. }
  by apply (H (String.length s)).
Qed.

Lemma extra_patterns_clean extra : Forall clean_pattern (extra_patterns extra).
Proof.
  unfold extra_patterns. apply Forall_forall.
  intros v [Hin Hne]%list_elem_of_In%filter_In.
  apply negb_true_iff, bool_decide_eq_false in Hne.
  apply in_map_iff in Hin as (l & <- & Hl%list_elem_of_In).
  split_and!; [apply strip_idem|done|].
  apply no_lb_strip.
  pose proof (splitlines_no_lb (Py.replace_char "," "010" extra)) as H.
  rewrite Forall_forall in H. by apply H.
Qed.

Lemma default_excludes_clean : Forall clean_pattern DEFAULT_GIT_EXCLUDES.
Proof.
  unfold DEFAULT_GIT_EXCLUDES.
  repeat (constructor; [split_and!; [reflexivity|discriminate|reflexivity]|]).
  constructor.
Qed.

Lemma exclude_patterns_clean P : Forall clean_pattern (exclude_patterns P).
Proof.
  unfold exclude_patterns. apply Forall_app. split; [apply default_excludes_clean|].
  case_bool_decide; [constructor|apply extra_patterns_clean].
Qed.

Lemma exclude_patterns_cons P : ∃ p l, exclude_patterns P = p :: l.
Proof. unfold exclude_patterns, DEFAULT_GIT_EXCLUDES. simpl. eauto. Qed.

End Patterns.

(** ** The exclude file *)

(** The local exclude file of the repository at [rp]. *)
Definition exclude_file (rp : path) : path :=
  path_join (path_join (path_join rp ".git") "info") "exclude".

(** The set [existing] that [_ensure_git_excludes] reads from the file. *)
Definition known_lines (ex : path) (fs : filesys) : list string :=
  if path_exists fs ex then
    match path_read_text ex fs with
    | inr text => present_lines text
    | inl _ => []
    end
  else [].

(** The list [to_add]. *)
Definition missing_patterns (pats : list string) (ex : path) (fs : filesys) : list string :=
  select_missing pats (known_lines ex fs).

Definition with_final_newline (text : string) : string :=
  if negb (bool_decide (text = EmptyString)) && negb (Py.endswith LF text)
  then text +:+ LF else text.

(** The file system after the reading and appending part of
    [_ensure_git_excludes], whose failures are logged and passed over. *)
Definition appended (pats : list string) (ex : path) (fs : filesys) : filesys :=
  match missing_patterns pats ex fs with
  | [] => fs
  | to_add =>
      match (if path_exists fs ex then
               match path_read_text ex fs with
               | inr text => inr (with_final_newline text)
               | inl e => inl e
               end
             else inr EmptyString) with
      | inl _ => fs
      | inr content =>
          match path_write_text ex (content +:+ Py.join LF to_add +:+ LF) fs with
          | inr fs' => fs'
          | inl _ => fs
          end
      end
  end.

(** [_ensure_git_excludes] as a function of the file system. *)
Lemma ensure_git_excludes_run G P rp st :
  ∃ t,
    ensure_git_excludes G P rp st =
      if is_repository G (st_fs st) rp then
        match path_mkdir true true (parent (exclude_file rp)) (st_fs st) with
        | (fs1, inl e) =>
            (State fs1 (st_work_path st) (st_askpass st)
                   (st_trace st ++ [EvMkdir (parent (exclude_file rp))]), Raise e)
        | (fs1, inr _) =>
            (State (appended (exclude_patterns P) (exclude_file rp) fs1)
                   (st_work_path st) (st_askpass st)
                   (st_trace st ++ EvMkdir (parent (exclude_file rp)) :: t), Ok tt)
        end
      else (st, Ok tt).
Proof.
  unfold ensure_git_excludes. fold (exclude_file rp).
  unfold appended, missing_patterns, known_lines.
  destruct (exclude_patterns_cons P) as (p0 & l0 & ->).
  generalize (p0 :: l0). intros pats.
  set (ex := exclude_file rp).
  unfold bind at 1. unfold call_is_repository, query at 1.
  destruct (is_repository G (st_fs st) rp); cbn [negb]; [|by exists []].
  unfold mkdir. rewrite bind_assoc. unfold bind at 1, log at 1, bind at 1, perform at 1.
  cbn [st_fs st_work_path st_askpass st_trace].
  destruct (path_mkdir true true (parent ex) (st_fs st)) as [fs1 [e|[]]];
    [by exists []|].
  cbn [st_fs st_work_path st_askpass st_trace].
  destruct (path_exists fs1 ex) eqn:Hex;
    [destruct (path_read_text ex fs1) as [e|text] eqn:Hread|].
  all: match goal with
       | |- context [select_missing ?ps ?l] =>
           destruct (select_missing ps l) as [|p1 l1] eqn:Hsel
       end.
  all: try match goal with
       | |- context [path_write_text ?x ?c ?f] =>
           destruct (path_write_text x c f) as [e'|fs2] eqn:Hwrite
       end.
  all: unfold read_text, write_text, warning, bind, ret, try_except, query,
         update, perform, log, with_fs, is_Exception, with_final_newline in *;
       cbn [st_fs st_work_path st_askpass st_trace];
       rewrite ?Hex; cbn [st_fs st_work_path st_askpass st_trace];
       rewrite ?Hread; cbn [st_fs st_work_path st_askpass st_trace];
       rewrite ?Hsel; cbn [st_fs st_work_path st_askpass st_trace];
       rewrite ?Hex; cbn [st_fs st_work_path st_askpass st_trace];
       rewrite ?Hread; cbn [st_fs st_work_path st_askpass st_trace];
       rewrite ?Hwrite; cbn [st_fs st_work_path st_askpass st_trace];
       rewrite <- ?app_assoc; by eexists.
Qed.

Section Appending.

Lemma endswith_app suf s : Py.endswith suf (s +:+ suf) = true.
Proof.
  induction s as [|a s IH].
  - rewrite app_empty. destruct suf; [done|]. simpl. by rewrite bool_decide_eq_true_2.
  - rewrite app_cons. simpl. by rewrite IH, orb_true_r.
Qed.

Lemma with_final_newline_closed text :
  with_final_newline text = EmptyString
  ∨ Py.endswith LF (with_final_newline text) = true.
Proof.
  unfold with_final_newline. case_bool_decide as He; simpl; [by left|].
  destruct (Py.endswith LF text) eqn:E; simpl; right; [done|apply endswith_app].
Qed.

Lemma with_final_newline_lines text l :
  no_cr text → In l (Py.splitlines text) → In l (Py.splitlines (with_final_newline text)).
Proof.
  intros Hcr Hl. unfold with_final_newline.
  destruct (negb _ && negb _); [|done].
  rewrite splitlines_snoc_lf by done. apply in_or_app. by left.
Qed.

Lemma with_final_newline_no_cr text : no_cr text → no_cr (with_final_newline text).
Proof.
  intros H. unfold with_final_newline. destruct (negb _ && negb _); [|done].
  by apply no_cr_app.
Qed.

Lemma no_cr_join l : Forall no_lb l → no_cr (Py.join LF l).
Proof.
  induction 1 as [|x l Hx Hl IH]; [done|].
  destruct l as [|y l]; [by apply no_lb_no_cr|].
  change (Py.join LF (x :: y :: l)) with (x +:+ LF +:+ Py.join LF (y :: l)).
  rewrite !no_cr_app. split_and!; [by apply no_lb_no_cr|done|done].
Qed.

(** The lines of the file after the missing patterns are appended. *)
Lemma appended_text_lines content to_add :
  no_cr content →
  content = EmptyString ∨ Py.endswith LF content = true →
  Forall no_lb to_add → to_add ≠ [] →
  let new := content +:+ Py.join LF to_add +:+ LF in
  universal_newlines new = new
  ∧ Py.splitlines new = Py.splitlines content ++ to_add.
Proof.
  intros Hcr Hend Hlb Hne new. split.
  - apply universal_newlines_id. unfold new. rewrite !no_cr_app.
    split_and!; [done|by apply no_cr_join|done].
  - unfold new. destruct Hend as [->|Hend].
    + rewrite app_empty. simpl. by apply splitlines_join.
    + apply endswith_LF_inv in Hend as [c0 ->].
      apply no_cr_app in Hcr as [Hc0 _].
      rewrite app_assoc_str, splitlines_lf_app by done.
      by rewrite splitlines_join.
Qed.

Lemma present_lines_intro l text :
  In l (Py.splitlines text) → Py.strip l ≠ EmptyString →
  In (Py.strip l) (present_lines text).
Proof.
  intros Hl Hne. unfold present_lines. apply filter_In. split.
  - apply in_map_iff. eauto.
  - by rewrite bool_decide_eq_false_2.
Qed.

Lemma present_lines_elim p text :
  In p (present_lines text) →
  ∃ l, In l (Py.splitlines text) ∧ Py.strip l = p ∧ p ≠ EmptyString.
Proof.
  unfold present_lines. intros [Hin Hne]%filter_In.
  apply in_map_iff in Hin as (l & <- & Hl).
  apply negb_true_iff, bool_decide_eq_false in Hne. eauto.
Qed.

Lemma select_missing_In p pats known :
  In p pats → In p known ∨ In p (select_missing pats known).
Proof.
  intros Hp. destruct (decide (p ∈ known)) as [Hk|Hk].
  - left. by apply list_elem_of_In.
  - right. unfold select_missing. apply filter_In. split; [done|].
    by rewrite bool_decide_eq_false_2.
Qed.

Lemma select_missing_clean pats known :
  Forall clean_pattern pats → Forall clean_pattern (select_missing pats known).
Proof.
  intros H. unfold select_missing. apply Forall_forall.
  intros p [Hp _]%list_elem_of_In%filter_In.
  rewrite Forall_forall in H. by apply H, list_elem_of_In.
Qed.

Lemma select_missing_nil pats known :
  (∀ p, In p pats → In p known) → select_missing pats known = [].
Proof.
  intros H. unfold select_missing. induction pats as [|p pats IH]; [done|].
  simpl. rewrite bool_decide_eq_true_2 by (apply list_elem_of_In, H; by left).
  simpl. apply IH. intros q Hq. apply H. by right.
Qed.

(** Once the missing patterns are written behind the old text, every
    candidate is a line of the file. *)
Lemma all_patterns_present pats known content :
  Forall clean_pattern pats →
  no_cr content →
  content = EmptyString ∨ Py.endswith LF content = true →
  (∀ p, In p known →
     ∃ l, In l (Py.splitlines content) ∧ Py.strip l = p ∧ p ≠ EmptyString) →
  select_missing pats known ≠ [] →
  let new := content +:+ Py.join LF (select_missing pats known) +:+ LF in
  select_missing pats (present_lines (universal_newlines new)) = [].
Proof.
  intros Hclean Hcr Hend Hknown Hne new.
  pose proof (select_missing_clean pats known Hclean) as Hmc.
  destruct (appended_text_lines content (select_missing pats known)) as [Hun Hlines];
    [done|done| |done|].
  { eapply Forall_impl; [exact Hmc|]. by intros p (_ & _ & ?). }
  fold new in Hun, Hlines. rewrite Hun.
  apply select_missing_nil. intros p Hp.
  destruct (select_missing_In p pats known Hp) as [Hk|Hm].
  - destruct (Hknown p Hk) as (l & Hl & <- & Hnz).
    apply present_lines_intro; [|done]. rewrite Hlines. apply in_or_app. by left.
  - rewrite Forall_forall in Hmc. destruct (Hmc p) as (Hs & Hnz & _);
      [by apply list_elem_of_In|].
    rewrite <- Hs. apply present_lines_intro; [|by rewrite Hs].
    rewrite Hlines. apply in_or_app. by right.
Qed.

End Appending.

Section Rewriting.

(** Writing a file where there was a file or nothing keeps where every
    path leads. *)
Lemma resolve_go_set_file fuel fs q c m : ∀ p,
  (∀ t, lstat fs q ≠ Some (Symlink t)) → q ≠ [] →
  resolve_go fuel (set_node q (File c m) fs) p = resolve_go fuel fs p.
Proof.
  induction fuel as [|fuel IH]; intros p Hq Hne; simpl.
  - destruct (decide (q = p)) as [<-|Hqp].
    + rewrite lstat_set_node_eq by done.
      destruct (lstat fs q) as [[| |t]|] eqn:E; try done. by destruct (Hq t).
    + by rewrite lstat_set_node_ne.
  - destruct (decide (q = p)) as [<-|Hqp].
    + rewrite lstat_set_node_eq by done.
      destruct (lstat fs q) as [[| |t]|] eqn:E; try done. by destruct (Hq t).
    + rewrite lstat_set_node_ne by done.
      destruct (lstat fs p) as [[| |t]|]; try done. by apply IH.
Qed.

Lemma resolve_Some_not_link fuel fs : ∀ p q,
  resolve_go fuel fs p = Some q → ∀ t, lstat fs q ≠ Some (Symlink t).
Proof.
  induction fuel as [|fuel IH]; intros p q; simpl.
  - destruct (lstat fs p) as [[| |t]|] eqn:E; try done; intros [= <-] t'; congruence.
  - destruct (lstat fs p) as [[| |t]|] eqn:E; try (intros [= <-] t'; congruence).
    apply IH.
Qed.

Lemma path_write_text_inr p new fs fs' :
  path_write_text p new fs = inr fs' →
  ∃ q m, resolve fs p = Some q ∧ q ≠ []
         ∧ fs' = set_node q (File new m) fs
         ∧ ((∃ c, lstat fs q = Some (File c m))
            ∨ (lstat fs q = None ∧ m = 420%N)).
Proof.
  unfold path_write_text. destruct (resolve fs p) as [q|] eqn:Hr; [|done].
  destruct (lstat fs q) as [[|c m|t]|] eqn:E; try done;
    (assert (Hq : q ≠ []) by (intros ->; done)).
  - destruct (N.testbit m 7); [|done]. intros [= <-]. exists q, m. eauto 10.
  - destruct (create_error fs q); [done|]. intros [= <-]. exists q, 420%N. eauto 10.
Qed.

Lemma path_read_text_inr p fs text :
  path_read_text p fs = inr text →
  ∃ q c m, resolve fs p = Some q ∧ lstat fs q = Some (File c m)
           ∧ N.testbit m 8 = true ∧ text = universal_newlines c.
Proof.
  unfold path_read_text. destruct (resolve fs p) as [q|] eqn:Hr; [|done].
  destruct (lstat fs q) as [[|c m|t]|] eqn:E; try done.
  destruct (N.testbit m 8) eqn:Hm; [|done]. intros [= <-]. eauto 10.
Qed.

Lemma path_exists_false fs p q :
  path_exists fs p = false → resolve fs p = Some q → lstat fs q = None.
Proof.
  unfold path_exists, stat. intros H Hr. rewrite Hr in H.
  apply bool_decide_eq_false in H. destruct (lstat fs q); [|done].
  destruct H. eauto.
Qed.

(** What [appended] does: nothing, or it writes the old text, closed by a
    line feed, with the missing patterns behind it. *)
Lemma appended_cases pats ex fs :
  appended pats ex fs = fs
  ∨ ∃ q m content,
      resolve fs ex = Some q ∧ q ≠ []
      ∧ appended pats ex fs
        = set_node q (File (content +:+ Py.join LF (missing_patterns pats ex fs) +:+ LF) m) fs
      ∧ missing_patterns pats ex fs ≠ []
      ∧ N.testbit m 8 = true
      ∧ (lstat fs q = None ∨ ∃ c, lstat fs q = Some (File c m))
      ∧ no_cr content
      ∧ (content = EmptyString ∨ Py.endswith LF content = true)
      ∧ (∀ p, In p (known_lines ex fs) →
           ∃ l, In l (Py.splitlines content) ∧ Py.strip l = p ∧ p ≠ EmptyString).
Proof.
  unfold appended. destruct (missing_patterns pats ex fs) as [|p1 l1] eqn:Hm; [by left|].
  unfold known_lines.
  destruct (path_exists fs ex) eqn:Hex.
  - destruct (path_read_text ex fs) as [e|text] eqn:Hread; [by left|].
    destruct (path_write_text ex _ fs) as [e|fs'] eqn:Hw; [by left|]. right.
    apply path_write_text_inr in Hw as (q & m & Hr & Hq & -> & Hold).
    apply path_read_text_inr in Hread as (q' & c & m' & Hr' & Hl & Hbit & ->).
    rewrite Hr in Hr'. injection Hr' as <-.
    assert (m = m') as <-.
    { destruct Hold as [[c' Hc']|[Hn _]]; congruence. }
    exists q, m, (with_final_newline (universal_newlines c)).
    split_and!; try done.
    + right. eauto.
    + apply with_final_newline_no_cr, universal_newlines_no_cr.
    + apply with_final_newline_closed.
    + intros p (l & Hin & Hs & Hne)%present_lines_elim. exists l. split_and!; try done.
      apply with_final_newline_lines; [apply universal_newlines_no_cr|done].
  - destruct (path_write_text ex _ fs) as [e|fs'] eqn:Hw; [by left|]. right.
    apply path_write_text_inr in Hw as (q & m & Hr & Hq & -> & Hold).
    pose proof (path_exists_false _ _ _ Hex Hr) as Hn.
    destruct Hold as [[c' Hc']|[_ ->]]; [congruence|].
    exists q, 420%N, EmptyString. split_and!; try done; auto.
Qed.

Lemma appended_written_settled pats ex fs q m content :
  Forall clean_pattern pats →
  resolve fs ex = Some q → q ≠ [] →
  missing_patterns pats ex fs ≠ [] →
  N.testbit m 8 = true →
  (lstat fs q = None ∨ ∃ c, lstat fs q = Some (File c m)) →
  no_cr content →
  content = EmptyString ∨ Py.endswith LF content = true →
  (∀ p, In p (known_lines ex fs) →
     ∃ l, In l (Py.splitlines content) ∧ Py.strip l = p ∧ p ≠ EmptyString) →
  let fs' := set_node q
    (File (content +:+ Py.join LF (missing_patterns pats ex fs) +:+ LF) m) fs in
  appended pats ex fs' = fs'.
Proof.
  intros Hclean Hr Hq Hmiss Hbit Hold Hcr Hend Hknown fs'.
  assert (Hnl : ∀ t, lstat fs q ≠ Some (Symlink t)).
  { intros t. destruct Hold as [->|[c ->]]; done. }
  assert (Hr' : resolve fs' ex = Some q).
  { unfold resolve, fs'. by rewrite resolve_go_set_file. }
  assert (Hl' : lstat fs' q
    = Some (File (content +:+ Py.join LF (missing_patterns pats ex fs) +:+ LF) m)).
  { unfold fs'. by rewrite lstat_set_node_eq. }
  assert (Hk : known_lines ex fs' = present_lines (universal_newlines
      (content +:+ Py.join LF (missing_patterns pats ex fs) +:+ LF))).
  { unfold known_lines, path_exists, stat, path_read_text. rewrite Hr', Hl', Hbit.
    by rewrite bool_decide_eq_true_2 by eauto. }
  unfold appended at 1. unfold missing_patterns at 1. rewrite Hk.
  unfold missing_patterns. by rewrite all_patterns_present.
Qed.

(** Appending a second time appends nothing. *)
Lemma appended_idem pats ex fs :
  Forall clean_pattern pats →
  appended pats ex (appended pats ex fs) = appended pats ex fs.
Proof.
  intros Hclean.
  destruct (appended_cases pats ex fs)
    as [E|(q & m & content & Hr & Hq & E & Hm & Hbit & Hold & Hcr & Hend & Hk)].
  - by rewrite !E.
  - rewrite E. by apply appended_written_settled.
Qed.

End Rewriting.

(** ** Repeating [mkdir] *)

(** Where a directory stands ready: its parent is an entry and the path
    leads to a directory. *)
Definition dir_ready (fs : filesys) (p : path) : Prop :=
  lstat fs (parent p) ≠ None ∧ path_is_dir fs p = true.

Section Mkdir.

Lemma path_cases (p : path) : p = [] ∨ ∃ d x, p = d ++ [x].
Proof.
  destruct p as [|a p] using rev_ind; [by left|]. right. eauto.
Qed.

Lemma parent_prefix p : parent p `prefix_of` p.
Proof.
  destruct (path_cases p) as [->|(d & x & ->)]; [done|].
  rewrite parent_child. by apply prefix_app_r.
Qed.

Lemma parent_not_self p : p ≠ [] → parent p ≠ p.
Proof.
  destruct (path_cases p) as [->|(d & x & ->)]; [done|]. intros _.
  rewrite parent_child. intros H. apply (f_equal length) in H.
  rewrite length_app in H. simpl in H. lia.
Qed.

Lemma not_prefix_of_parent p : p ≠ [] → ¬ p `prefix_of` parent p.
Proof.
  destruct (path_cases p) as [->|(d & x & ->)]; [done|]. intros _.
  rewrite parent_child. apply prefix_snoc_not.
Qed.

Lemma os_mkdir_inl p fs e :
  os_mkdir p fs = inl e →
  create_error fs p = Some e
  ∧ (exn_cls e = FileNotFoundError ↔ lstat fs (parent p) = None).
Proof.
  unfold os_mkdir. destruct (create_error fs p) as [e'|] eqn:E; [|done].
  intros [= <-]. split; [done|]. unfold create_error in E.
  destruct (lstat fs (parent p)) as [[| |]|];
    [destruct (lstat fs p); [|case_decide]|..]; simplify_eq; done.
Qed.

Lemma path_is_dir_lstat fs p : path_is_dir fs p = true → lstat fs p ≠ None.
Proof.
  unfold path_is_dir, stat, resolve. simpl.
  destruct (lstat fs p) as [[| |t]|] eqn:E; try done.
  by rewrite E.
Qed.

Lemma path_is_dir_Dir fs p : lstat fs p = Some Dir → path_is_dir fs p = true.
Proof.
  intros H. unfold path_is_dir, stat.
  rewrite resolve_not_link by (rewrite H; done). by rewrite H.
Qed.

Lemma os_mkdir_ready p fs fs' : os_mkdir p fs = inr fs' → dir_ready fs' p.
Proof.
  intros (Hn & Hp & Hpar & ->)%os_mkdir_inr. split.
  - destruct (parent p) as [|a d] eqn:E; [done|]. simpl.
    rewrite lookup_insert_ne by (rewrite <- E; by apply not_eq_sym, parent_not_self).
    rewrite <- E in Hpar |- *. destruct (parent p); [done|]. simpl in Hpar. congruence.
  - apply path_is_dir_Dir. destruct p; [done|]. simpl. by rewrite lookup_insert_eq.
Qed.

(** A successful [mkdir] leaves the directory ready. *)
Lemma path_mkdir_go_ready fuel : ∀ parents exist_ok p fs fs',
  path_mkdir_go fuel parents exist_ok p fs = (fs', inr tt) → dir_ready fs' p.
Proof.
  induction fuel as [|fuel IH]; intros parents exist_ok p fs fs'; simpl;
    destruct (os_mkdir p fs) as [e|fs1] eqn:E;
    try (intros [= <-]; by eapply os_mkdir_ready).
  - apply os_mkdir_inl in E as [_ Hfnf]. case_decide as Hc.
    + by destruct (negb parents || _).
    + destruct (negb exist_ok || negb (path_is_dir fs p)) eqn:Ht; [done|].
      intros [= <-]. apply orb_false_iff in Ht as [_ Hd%negb_false_iff].
      split; [|done]. intros Hn. by apply Hc, Hfnf.
  - apply os_mkdir_inl in E as [_ Hfnf]. case_decide as Hc.
    + destruct (negb parents || _); [done|].
      destruct (path_mkdir_go fuel true true (parent p) fs) as [fs1 [e1|[]]]; [done|].
      apply IH.
    + destruct (negb exist_ok || negb (path_is_dir fs p)) eqn:Ht; [done|].
      intros [= <-]. apply orb_false_iff in Ht as [_ Hd%negb_false_iff].
      split; [|done]. intros Hn. by apply Hc, Hfnf.
Qed.

(** Where the directory stands ready, [mkdir] with [exist_ok] is idle. *)
Lemma path_mkdir_go_idle fuel parents p fs :
  dir_ready fs p → path_mkdir_go fuel parents true p fs = (fs, inr tt).
Proof.
  intros [Hpar Hdir].
  assert (He : ∃ e, os_mkdir p fs = inl e ∧ exn_cls e ≠ FileNotFoundError).
  { unfold os_mkdir, create_error.
    pose proof (path_is_dir_lstat _ _ Hdir) as Hp.
    destruct (lstat fs (parent p)) as [[| |]|]; [|eauto..|done].
    destruct (lstat fs p); [eauto|done]. }
  destruct He as (e & He & Hc).
  destruct fuel; simpl; rewrite He, decide_False, Hdir by done; done.
Qed.

Lemma dir_ready_set_file fs p q c m :
  dir_ready fs p → q ≠ [] →
  (lstat fs q = None ∨ ∃ c' m', lstat fs q = Some (File c' m')) →
  dir_ready (set_node q (File c m) fs) p.
Proof.
  intros [Hpar Hdir] Hq Hold.
  assert (Hnl : ∀ t, lstat fs q ≠ Some (Symlink t)).
  { intros t. destruct Hold as [->|(c' & m' & ->)]; done. }
  split.
  - destruct (decide (q = parent p)) as [<-|Hne].
    + by rewrite lstat_set_node_eq.
    + by rewrite lstat_set_node_ne.
  - unfold path_is_dir, stat, resolve in *. rewrite resolve_go_set_file by done.
    destruct (resolve_go 40 fs p) as [y|]; [|done].
    destruct (decide (q = y)) as [<-|Hne].
    + destruct Hold as [E|(c' & m' & E)]; by rewrite E in Hdir.
    + by rewrite lstat_set_node_ne.
Qed.

(** [mkdir] changes entries above its path only. *)
Lemma path_mkdir_go_above fuel : ∀ parents exist_ok p fs fs' r x,
  path_mkdir_go fuel parents exist_ok p fs = (fs', r) →
  ¬ x `prefix_of` p → lstat fs' x = lstat fs x.
Proof.
  assert (Hos : ∀ p fs fs1 x, os_mkdir p fs = inr fs1 → ¬ x `prefix_of` p →
                  lstat fs1 x = lstat fs x).
  { intros p fs fs1 x (_ & _ & _ & ->)%os_mkdir_inr Hx.
    destruct x; [done|]. simpl. apply lookup_insert_ne. by intros ->. }
  induction fuel as [|fuel IH]; intros parents exist_ok p fs fs' r x; simpl;
    destruct (os_mkdir p fs) as [e|fs1] eqn:E;
    try (intros [= <- _]; by eapply Hos).
  - by repeat case_match; intros [= <- _].
  - case_decide; [|by case_match; intros [= <- _]].
    destruct (negb parents || _); [by intros [= <- _]|].
    destruct (path_mkdir_go fuel true true (parent p) fs) as [fs1 [e1|[]]] eqn:E1.
    + intros [= <- _] Hx. eapply IH; [done|]. intros Hp. apply Hx.
      etrans; [done|apply parent_prefix].
    + intros H2 Hx. erewrite IH; [|done|done]. eapply IH; [done|].
      intros Hp. apply Hx. etrans; [done|apply parent_prefix].
Qed.

(** Without [parents], a failing [mkdir] has done nothing. *)
Lemma path_mkdir_go_flat_inl fuel exist_ok p fs fs' e :
  path_mkdir_go fuel false exist_ok p fs = (fs', inl e) →
  fs' = fs ∧ os_mkdir p fs = inl e.
Proof.
  destruct fuel; simpl; destruct (os_mkdir p fs) as [e0|fs1]; try done;
    repeat case_match; by intros [= <- <-].
Qed.

(** The equations of [path_mkdir_go], by the outcome of [os.mkdir]. *)
Lemma go_inr fuel pa eo p fs fs1 :
  os_mkdir p fs = inr fs1 → path_mkdir_go fuel pa eo p fs = (fs1, inr tt).
Proof. intros E. destruct fuel; simpl; by rewrite E. Qed.

Lemma go_other fuel pa eo p fs e0 :
  os_mkdir p fs = inl e0 → exn_cls e0 ≠ FileNotFoundError →
  path_mkdir_go fuel pa eo p fs =
    if negb eo || negb (path_is_dir fs p) then (fs, inl e0) else (fs, inr tt).
Proof. intros E Hc. destruct fuel; simpl; by rewrite E, decide_False. Qed.

Lemma go_missing_stop fuel pa eo p fs e0 :
  os_mkdir p fs = inl e0 → exn_cls e0 = FileNotFoundError →
  negb pa || bool_decide (parent p = p) = true →
  path_mkdir_go fuel pa eo p fs = (fs, inl e0).
Proof. intros E Hc Hs. destruct fuel; simpl; by rewrite E, decide_True, Hs. Qed.

Lemma go_missing_rec fuel pa eo p fs e0 :
  os_mkdir p fs = inl e0 → exn_cls e0 = FileNotFoundError →
  negb pa || bool_decide (parent p = p) = false →
  path_mkdir_go (S fuel) pa eo p fs =
    match path_mkdir_go fuel true true (parent p) fs with
    | (fs1, inl e1) => (fs1, inl e1)
    | (fs1, inr _) => path_mkdir_go fuel false eo p fs1
    end.
Proof. intros E Hc Hs. simpl. by rewrite E, decide_True, Hs. Qed.

Lemma go_missing_spent pa eo p fs e0 :
  os_mkdir p fs = inl e0 → exn_cls e0 = FileNotFoundError →
  path_mkdir_go 0 pa eo p fs = (fs, inl e0).
Proof. intros E Hc. simpl. rewrite E, decide_True by done. by case_match. Qed.

(** A failing [mkdir] leaves its own path without an entry. *)
Lemma path_mkdir_go_keeps_absent fuel : ∀ pa eo q fs fsa e1,
  path_mkdir_go fuel pa eo q fs = (fsa, inl e1) →
  lstat fs q = None → lstat fsa q = None.
Proof.
  induction fuel as [|fuel IH]; intros pa eo q fs fsa e1 H Hn;
    destruct (os_mkdir q fs) as [e0|fs1] eqn:E;
    try (by rewrite (go_inr _ _ _ _ _ _ E) in H);
    destruct (decide (exn_cls e0 = FileNotFoundError)) as [Hc|Hc];
    try (rewrite (go_other _ _ _ _ _ _ E Hc) in H; by case_match; simplify_eq).
  - rewrite (go_missing_spent _ _ _ _ _ E Hc) in H. by simplify_eq.
  - destruct (negb pa || bool_decide (parent q = q)) eqn:Hs.
    { rewrite (go_missing_stop _ _ _ _ _ _ E Hc Hs) in H. by simplify_eq. }
    assert (Hq : q ≠ []).
    { intros ->. apply orb_false_iff in Hs as [_ Hs].
      by rewrite bool_decide_eq_true_2 in Hs. }
    rewrite (go_missing_rec _ _ _ _ _ _ E Hc Hs) in H.
    destruct (path_mkdir_go fuel true true (parent q) fs) as [fsb [eb|[]]] eqn:Eb.
    + simplify_eq. erewrite path_mkdir_go_above; [done|done|].
      by apply not_prefix_of_parent.
    + apply path_mkdir_go_flat_inl in H as [-> _].
      erewrite path_mkdir_go_above; [done|done|]. by apply not_prefix_of_parent.
Qed.

(** A [mkdir] that failed fails again, with nothing more changed. *)
Lemma path_mkdir_go_fails_again fuel : ∀ parents exist_ok p fs fs' e,
  path_mkdir_go fuel parents exist_ok p fs = (fs', inl e) →
  path_mkdir_go fuel parents exist_ok p fs' = (fs', inl e).
Proof.
  induction fuel as [|fuel IH]; intros pa eo p fs fs' e H;
    destruct (os_mkdir p fs) as [e0|fs1] eqn:E;
    try (by rewrite (go_inr _ _ _ _ _ _ E) in H);
    destruct (decide (exn_cls e0 = FileNotFoundError)) as [Hc|Hc];
    try (pose proof H as H'; rewrite (go_other _ _ _ _ _ _ E Hc) in H';
         destruct (negb eo || negb (path_is_dir fs p)); simplify_eq; done).
  - pose proof H as H'. rewrite (go_missing_spent _ _ _ _ _ E Hc) in H'.
    by simplify_eq.
  - destruct (negb pa || bool_decide (parent p = p)) eqn:Hs.
    { pose proof H as H'. rewrite (go_missing_stop _ _ _ _ _ _ E Hc Hs) in H'.
      by simplify_eq. }
    rewrite (go_missing_rec _ _ _ _ _ _ E Hc Hs) in H.
    destruct (path_mkdir_go fuel true true (parent p) fs) as [fsa [e1|[]]] eqn:E1.
    + simplify_eq.
      assert (Hn : lstat fs' (parent p) = None).
      { eapply path_mkdir_go_keeps_absent; [done|].
        apply os_mkdir_inl in E as [_ Hfnf]. by apply Hfnf. }
      assert (E' : ∃ e', os_mkdir p fs' = inl e' ∧ exn_cls e' = FileNotFoundError).
      { unfold os_mkdir, create_error. rewrite Hn. eauto. }
      destruct E' as (e' & E' & Hc').
      rewrite (go_missing_rec _ _ _ _ _ _ E' Hc' Hs).
      by rewrite (IH _ _ _ _ _ _ E1).
    + pose proof H as H'. apply path_mkdir_go_flat_inl in H' as [-> E2].
      pose proof (path_mkdir_go_ready _ _ _ _ _ _ E1) as [_ Hd].
      apply path_is_dir_lstat in Hd.
      assert (Hc2 : exn_cls e ≠ FileNotFoundError).
      { intros Hf. apply os_mkdir_inl in E2 as [_ Hfnf]. by apply Hd, Hfnf. }
      rewrite (go_other fuel false _ _ _ _ E2 Hc2) in H.
      rewrite (go_other (S fuel) pa _ _ _ _ E2 Hc2).
      by destruct (negb eo || negb (path_is_dir fsa p)).
Qed.

End Mkdir.

Lemma appended_ready pats ex fs p :
  dir_ready fs p → dir_ready (appended pats ex fs) p.
Proof.
  intros Hr.
  destruct (appended_cases pats ex fs)
    as [->|(q & m & content & _ & Hq & -> & _ & _ & Hold & _)]; [done|].
  apply dir_ready_set_file; [done|done|].
  destruct Hold as [?|[c ?]]; eauto.
Qed.

Lemma select_missing_absent pats known :
  Forall (λ p, p ∉ known) (select_missing pats known).
Proof.
  unfold select_missing. apply Forall_forall.
  intros p [_ Hp]%list_elem_of_In%filter_In.
  by apply negb_true_iff, bool_decide_eq_false in Hp.
Qed.

(** C7, as the code has it. [_ensure_git_excludes] is idempotent: after a
    first call a second one leaves the whole file system, and so the exclude
    file byte for byte, as the first call left it, and it returns if the
    first did. It does nothing where the path is no repository. What it
    appends are the candidate patterns that are not yet lines of the file,
    so no pattern present in the file is written again. *)
Theorem ensure_git_excludes_idempotent (G : git_layer) (P : platform)
    (repo_path : path) (st : state) :
  let first := ensure_git_excludes G P repo_path st in
  let second := ensure_git_excludes G P repo_path first.1 in
  st_fs second.1 = st_fs first.1
  ∧ (first.2 = Ok tt → second.2 = Ok tt)
  ∧ (is_repository G (st_fs st) repo_path = false → first = (st, Ok tt))
  ∧ (∀ fs1,
       is_repository G (st_fs st) repo_path = true →
       path_mkdir true true (parent (exclude_file repo_path)) (st_fs st) = (fs1, inr tt) →
       st_fs first.1 = appended (exclude_patterns P) (exclude_file repo_path) fs1
       ∧ Forall (λ p, p ∉ known_lines (exclude_file repo_path) fs1)
           (missing_patterns (exclude_patterns P) (exclude_file repo_path) fs1)).
Proof.
  intros first second.
  destruct (ensure_git_excludes_run G P repo_path st) as [t1 H1].
  destruct (ensure_git_excludes_run G P repo_path first.1) as [t2 H2].
  fold first in H1. fold second in H2.
  generalize dependent (exclude_patterns_clean P).
  generalize dependent (exclude_patterns P). intros pats.
  generalize dependent (exclude_file repo_path). intros ex.
  intros H1 H2 Hclean.
  destruct (is_repository G (st_fs st) repo_path) eqn:Hrepo.
  - destruct (path_mkdir true true (parent ex) (st_fs st)) as [fs1 [e|[]]] eqn:Hmk.
    + (* the directory could not be made *)
      rewrite H1 in H2 |- *. cbn [fst snd st_fs] in *.
      split_and!; [|done|done|by intros fs1'].
      destruct (is_repository G fs1 repo_path); [|by rewrite H2].
      unfold path_mkdir in *.
      rewrite (path_mkdir_go_fails_again _ _ _ _ _ _ _ Hmk) in H2. by rewrite H2.
    + rewrite H1 in H2 |- *. cbn [fst snd st_fs] in *.
      assert (Hready : dir_ready (appended pats ex fs1) (parent ex)).
      { apply appended_ready. unfold path_mkdir in Hmk.
        by eapply path_mkdir_go_ready. }
      split_and!; [| |done|].
      * destruct (is_repository G (appended pats ex fs1) repo_path); [|by rewrite H2].
        unfold path_mkdir in H2. rewrite path_mkdir_go_idle in H2 by done.
        rewrite H2. cbn [fst snd st_fs]. by apply appended_idem.
      * intros _.
        destruct (is_repository G (appended pats ex fs1) repo_path); [|by rewrite H2].
        unfold path_mkdir in H2. rewrite path_mkdir_go_idle in H2 by done.
        by rewrite H2.
      * intros fs1' _ [= <-]. split; [done|]. apply select_missing_absent.
  - rewrite H1 in H2 |- *. cbn [fst snd st_fs] in *. rewrite Hrepo in H2. rewrite H2.
    split_and!; done.
Qed.

Lemma ensure_git_excludes_idempotent_witness :
  let first := ensure_git_excludes Sim.git Sim.host ["workspace"; "demo"] Sim.st_cloned in
  st_fs (ensure_git_excludes Sim.git Sim.host ["workspace"; "demo"] first.1).1 = st_fs first.1
  ∧ ∃ text, path_read_text (exclude_file ["workspace"; "demo"]) (st_fs first.1) = inr text
            ∧ Py.splitlines text = DEFAULT_GIT_EXCLUDES.
Proof.
  split.
  - exact (proj1 (ensure_git_excludes_idempotent Sim.git Sim.host
                    ["workspace"; "demo"] Sim.st_cloned)).
  - eexists. split; vm_compute; reflexivity.
Defined.

(** A candidate that repeats a built-in pattern is written twice by one
    call: with [WORKSPACE_GIT_IGNORE=dist/] the new file has two lines
    [dist/]. *)
Lemma ensure_git_excludes_duplicates_line :
  ∃ st' text,
    ensure_git_excludes Sim.git Sim.host_extra ["workspace"; "demo"] Sim.st_cloned
      = (st', Ok tt)
    ∧ path_read_text (exclude_file ["workspace"; "demo"]) (st_fs st') = inr text
    ∧ count_occ string_dec (Py.splitlines text) "dist/" = 2.
Proof. eexists _, _. split_and!; vm_compute; reflexivity. Qed.


(** * Further properties of the module *)

(** ** Compact error messages *)

Lemma length_append_str s t : String.length (s +:+ t) = String.length s + String.length t.
Proof. induction s as [|a s IH]; [done|]. rewrite app_cons. simpl. by rewrite IH. Qed.

Lemma length_take n s : String.length (Py.take n s) = Nat.min n (String.length s).
Proof.
  unfold Py.take. revert n. induction s as [|a s IH]; intros [|n]; simpl; try done.
  by rewrite IH.
Qed.

Lemma take_app_rest n s : ∃ rest, s = Py.take n s +:+ rest.
Proof.
  unfold Py.take. revert n. induction s as [|a s IH]; intros [|n]; simpl.
  - by exists EmptyString.
  - by exists EmptyString.
  - by exists (String a s).
  - destruct (IH n) as [rest Hr]. exists rest. rewrite app_cons. by rewrite <- Hr.
Qed.

(** The detail of a clone or checkout failure is the message of the cause
    when that has at most 2000 characters, and else its first 2000
    characters followed by the ellipsis; it is never longer than 2000
    characters and the ellipsis. *)
Theorem compact_bounded (detail : string) :
  (String.length detail ≤ 2000 → compact detail = detail)
  ∧ (2000 < String.length detail →
       ∃ rest, compact detail = Py.take 2000 detail +:+ "…"
               ∧ String.length (Py.take 2000 detail) = 2000
               ∧ detail = Py.take 2000 detail +:+ rest
               ∧ rest ≠ EmptyString)
  ∧ String.length (compact detail) ≤ 2000 + String.length "…".
Proof.
  unfold compact. split_and!.
  - intros H. destruct (2000 <? String.length detail) eqn:E; [|done].
    apply Nat.ltb_lt in E. lia.
  - intros H. destruct (2000 <? String.length detail) eqn:E;
      [|apply Nat.ltb_ge in E; lia].
    destruct (take_app_rest 2000 detail) as [rest Hr]. exists rest.
    assert (Hl : String.length (Py.take 2000 detail) = 2000)
      by (rewrite length_take; lia).
    split_and!; try done. intros ->. rewrite app_empty_r in Hr.
    rewrite <- Hr in Hl. lia.
  - destruct (2000 <? String.length detail) eqn:E.
    + rewrite length_append_str, length_take. lia.
    + apply Nat.ltb_ge in E. lia.
Qed.

Lemma compact_bounded_witness :
  compact "fatal: repository not found" = "fatal: repository not found".
Proof. apply (proj1 (compact_bounded _)). vm_compute. lia. Defined.

(** ** Which errors leave the convergence engine *)

Lemma checkout_error_foreign b p e : is_git_or_os_error (checkout_error b p e) = false.
Proof. unfold checkout_error. by destruct (is_git_or_os_error e) eqn:E. Qed.



(** No git or OS error leaves [_checkout_branch]: what it raises is the
    error of [fetch], or of [checkout] after a [fetch] that returned, turned
    into a [RuntimeError] that names the branch and the path when it is a
    [GitCommandError], [GitError] or [OSError], and passed on as it is
    otherwise. Without a branch it does not raise. *)
Theorem checkout_branch_raises (G : git_layer) (p : path) (branch : option string)
    (env : gmap string string) (st st' : state) (e : exn) :
  checkout_branch G p branch env st = (st', Raise e) →
  is_git_or_os_error e = false
  ∧ ∃ b cause,
      branch = Some b ∧ b ≠ EmptyString
      ∧ e = checkout_error b p cause
      ∧ (is_git_or_os_error cause = true →
           e = Exn RuntimeError
                 ("Failed to checkout branch '" +:+ b +:+ "' for repo at " +:+ path_str p
                  +:+ ". " +:+ compact (exn_msg cause)))
      ∧ let f := fetch G "origin" b p env (st_fs st) in
        (f.2 = inl cause ∧ st_fs st' = f.1)
        ∨ (returned f.2 = true ∧ (checkout G b p f.1).2 = inl cause
           ∧ st_fs st' = (checkout G b p f.1).1).
Proof.
  intros H. destruct (Py.truthy branch) eqn:Hb.
  - destruct branch as [b|]; [|done]. simpl in Hb.
    apply negb_true_iff, bool_decide_eq_false in Hb.
    rewrite checkout_branch_run in H by done. simpl in H.
    destruct (fetch G "origin" b p env (st_fs st)) as [fs1 [c|[]]] eqn:Ef; simpl in *.
    + injection H as <- <-. split; [apply checkout_error_foreign|].
      exists b, c. rewrite Ef. simpl. split_and!; try done; [|by left].
      intros Hc. unfold checkout_error. by rewrite Hc.
    + destruct (checkout G b p fs1) as [fs2 [c|[]]] eqn:Ec; simpl in *; [|done].
      injection H as <- <-. split; [apply checkout_error_foreign|].
      exists b, c. rewrite Ef. simpl. rewrite Ec. simpl.
      split_and!; try done; [|by right].
      intros Hc. unfold checkout_error. by rewrite Hc.
  - by rewrite checkout_branch_skip in H.
Qed.

(** A git layer whose [fetch] fails. *)
Definition git_offline : git_layer :=
  GitLayer Sim.is_repository Sim.clone Sim.init_repository Sim.checkout
    (λ _ _ _ _ fs, (fs, inl (Exn GitCommandError "fatal: unable to access remote"))).

Lemma checkout_branch_raises_witness :
  ∃ st', checkout_branch git_offline ["workspace"; "demo"] (Some "main") prompt_only
           Sim.st_cloned
         = (st', Raise (Exn RuntimeError
              "Failed to checkout branch 'main' for repo at /workspace/demo. fatal: unable to access remote")).
Proof.
  destruct (checkout_branch git_offline ["workspace"; "demo"] (Some "main") prompt_only
              Sim.st_cloned) as [st' [[]|e]] eqn:E.
  - vm_compute in E. discriminate E.
  - exists st'. f_equal. f_equal.
    destruct (checkout_branch_raises _ _ _ _ _ _ _ E)
      as (_ & b & cause & Hb & _ & _ & Hmsg & Hwhy).
    injection Hb as <-.
    assert (Hc : cause = Exn GitCommandError "fatal: unable to access remote").
    { destruct Hwhy as [[Hf _]|[Hr _]]; [by injection Hf as <-|discriminate Hr]. }
    subst cause. rewrite Hmsg by reflexivity. reflexivity.
Defined.





(** ** Without a repository URL *)

(** With an absent or blank [repo_url], [_prepare_repository] returns
    [root_path] and never raises. It calls no git operation when the root is
    a repository already, and else [init_repository] on the root and nothing
    more; a failure of that call is logged as a warning and passed over. The
    askpass helper and [work_path] are not touched. *)
Theorem prepare_repository_no_url (G : git_layer) (P : platform) (self : manager)
    (config : TaskConfig) (st : state) :
  or_empty_strip (repo_url config) = EmptyString →
  ∃ st',
    prepare_repository G P self config st = (st', Ok (root_path self))
    ∧ st_askpass st' = st_askpass st
    ∧ st_work_path st' = st_work_path st
    ∧ (is_repository G (st_fs st) (root_path self) = true → st' = st)
    ∧ (is_repository G (st_fs st) (root_path self) = false →
         let i := init_repository G (root_path self) (st_fs st) in
         st_fs st' = i.1
         ∧ git_calls (st_trace st') = git_calls (st_trace st) ++ [EvInit (root_path self)]
         ∧ match i.2 with
           | inr _ => st_trace st' = st_trace st ++ [EvInit (root_path self)]
           | inl exc =>
               st_trace st' = st_trace st ++
                 [EvInit (root_path self);
                  EvWarning ("Failed to init git repository at " +:+ path_str (root_path self)
                             +:+ ": " +:+ exn_msg exc)]
           end).
Proof.
  intros Hurl. unfold prepare_repository. rewrite Hurl. simpl.
  unfold ensure_git_repo. mrun.
  destruct (is_repository G (st_fs st) (root_path self)) eqn:Hrepo; simpl.
  - eexists. split_and!; try done.
  - destruct (init_repository G (root_path self) (st_fs st)) as [fs1 [exc|[]]] eqn:Ei;
      simpl; eexists; (split_and!; [done|done|done|done|]); intros _; simpl;
      unfold git_calls; rewrite <- ?app_assoc, !List.filter_app; simpl;
      by rewrite ?app_nil_r.
Qed.

Lemma prepare_repository_no_url_witness :
  ∃ st', prepare_repository Sim.git Sim.host Sim.self
           (Build_TaskConfig (Some "   ") (Some "main") (Some "abc")) Sim.st0
         = (st', Ok ["workspace"])
       ∧ lstat (st_fs st') ["workspace"; ".git"] = Some Dir.
Proof.
  destruct (prepare_repository_no_url Sim.git Sim.host Sim.self
              (Build_TaskConfig (Some "   ") (Some "main") (Some "abc")) Sim.st0)
    as (st' & Hrun & _ & _ & _ & Hinit).
  { vm_compute. reflexivity. }
  exists st'. split; [exact Hrun|].
  destruct Hinit as (Hfs & _); [vm_compute; reflexivity|].
  rewrite Hfs. vm_compute. reflexivity.
Defined.

(** ** Making the askpass helper once *)

(** After [_ensure_git_askpass] has returned a script, a further call
    returns the same path and changes nothing: no second temporary file is
    made while the first exists. *)
Theorem ensure_git_askpass_reused (P : platform) (st st1 : state) (p : path) :
  ensure_git_askpass P st = (st1, Ok p) →
  ensure_git_askpass P st1 = (st1, Ok p)
  ∧ st_askpass st1 = Some p
  ∧ path_exists (st_fs st1) p = true
  ∧ (∀ url t, t ≠ EmptyString → github_over_http P url = true →
       build_git_env P url (Some t) st1 = (st1, Ok (with_credentials p t))).
Proof.
  intros H.
  assert (Hst : st_askpass st1 = Some p ∧ path_exists (st_fs st1) p = true).
  { apply ensure_git_askpass_result in H.
    inversion H as [p' Ha He|p' Hn Hp Hne|]; subst; [done|]. simpl. split; [done|].
    eapply path_exists_not_link; [by apply lstat_set_node_eq|done]. }
  destruct Hst as [Ha He].
  assert (Hagain : ensure_git_askpass P st1 = (st1, Ok p))
    by by rewrite ensure_git_askpass_unfold, Ha, He.
  split_and!; try done.
  intros url t Ht Hh. rewrite build_git_env_granted by done.
  by rewrite (bind_ok _ _ _ _ _ Hagain).
Qed.

Lemma ensure_git_askpass_reused_witness :
  let st1 := (ensure_git_askpass Sim.host Sim.st0).1 in
  ensure_git_askpass Sim.host st1 = (st1, Ok Sim.askpass_file).
Proof.
  apply (proj1 (ensure_git_askpass_reused Sim.host Sim.st0 _ Sim.askpass_file
                  ltac:(vm_compute; reflexivity))).
Defined.

Lemma mkstemp_succeeds dir pre names fs n :
  lstat fs dir = Some Dir → dir ∉ fs_readonly fs → In n names →
  lstat fs (dir ++ [pre +:+ n]) = None →
  ∃ p fs', mkstemp dir pre names fs = inr (p, fs').
Proof.
  intros Hd Hro Hin Hn. induction names as [|x names IH]; [done|]. simpl.
  unfold create_error. rewrite parent_child, Hd.
  destruct (lstat fs (dir ++ [pre +:+ x])) eqn:Ex; simpl.
  - apply IH. destruct Hin as [->|Hin]; [congruence|done].
  - rewrite decide_False by done. eauto.
Qed.

Lemma create_git_askpass_raise P st st' e :
  create_git_askpass P st = (st', Raise e) →
  mkstemp (temp_dir P) "poco-git-askpass-" (temp_names P) (st_fs st) = inl e.
Proof.
  unfold create_git_askpass. mrun.
  destruct (mkstemp _ _ _ _) as [e1|[p fs']] eqn:E; simpl; [by intros [= _ <-]|].
  apply mkstemp_inr in E as (Hnone & Hpar & Hp & ->).
  unfold path_write_text.
  rewrite resolve_not_link by (rewrite lstat_set_node_eq; done).
  rewrite lstat_set_node_eq by done. simpl.
  unfold path_chmod. rewrite set_node_twice.
  rewrite resolve_not_link by (rewrite lstat_set_node_eq; done).
  rewrite lstat_set_node_eq by done. simpl. done.
Qed.

(** Where the manager has no script at hand, or the one it remembers is
    gone, and the temporary directory is a directory the process may write
    to with a candidate name free, [_ensure_git_askpass] returns a new file
    in that directory that holds the fixed script with mode [0o700], and
    remembers it. *)
Theorem ensure_git_askpass_creates (P : platform) (st : state) (n : string) :
  (∀ p, st_askpass st = Some p → path_exists (st_fs st) p = false) →
  lstat (st_fs st) (temp_dir P) = Some Dir →
  temp_dir P ∉ fs_readonly (st_fs st) →
  In n (temp_names P) →
  lstat (st_fs st) (temp_dir P ++ ["poco-git-askpass-" +:+ n]) = None →
  ∃ st1 p,
    ensure_git_askpass P st = (st1, Ok p)
    ∧ parent p = temp_dir P
    ∧ lstat (st_fs st) p = None
    ∧ lstat (st_fs st1) p = Some (File askpass_script askpass_mode)
    ∧ st_askpass st1 = Some p
    ∧ (∀ q, q ≠ p → lstat (st_fs st1) q = lstat (st_fs st) q).
Proof.
  intros Hgone Hd Hro Hin Hn.
  assert (Hrun : ensure_git_askpass P st = create_git_askpass P st).
  { rewrite ensure_git_askpass_unfold. destruct (st_askpass st) as [p|]; [|done].
    by rewrite (Hgone p eq_refl). }
  rewrite Hrun.
  destruct (create_git_askpass P st) as [st1 [p|e]] eqn:E.
  - exists st1, p. split; [done|].
    apply create_git_askpass_result in E.
    inversion E as [p' Ha He|p' Hnone Hp Hne|]; subst.
    + by rewrite (Hgone p Ha) in He.
    + simpl. split_and!; try done; [by apply lstat_set_node_eq|].
      intros q Hq. by apply lstat_set_node_ne.
  - apply create_git_askpass_raise in E.
    destruct (mkstemp_succeeds _ "poco-git-askpass-" _ _ n Hd Hro Hin Hn) as (p & fs' & E').
    congruence.
Qed.

Lemma ensure_git_askpass_creates_witness :
  ∃ st1, ensure_git_askpass Sim.host Sim.st0 = (st1, Ok Sim.askpass_file)
       ∧ lstat (st_fs st1) Sim.askpass_file = Some (File askpass_script askpass_mode).
Proof.
  destruct (ensure_git_askpass_creates Sim.host Sim.st0 "k3x9qa7b")
    as (st1 & p & Hrun & _ & _ & Hfile & _).
  - intros p Hp. discriminate Hp.
  - vm_compute. reflexivity.
  - simpl. apply not_elem_of_empty.
  - simpl. by left.
  - vm_compute. reflexivity.
  - exists st1.
    assert (Hp : p = Sim.askpass_file).
    { assert (Hc : (ensure_git_askpass Sim.host Sim.st0).2 = Ok Sim.askpass_file)
        by (vm_compute; reflexivity).
      rewrite Hrun in Hc. by injection Hc. }
    subst p. split; [exact Hrun|exact Hfile].
Defined.

(** ** When the exclude-file maintainer raises *)

Lemma os_error_is_OSError c p :
  c ∈ [FileNotFoundError; FileExistsError; NotADirectoryError;
       IsADirectoryError; PermissionError; OSError] →
  is_OSError (os_error c p) = true.
Proof. intros H. repeat (apply elem_of_cons in H as [->|H]; [done|]). by apply elem_of_nil in H. Qed.

Lemma os_mkdir_OSError p fs e : os_mkdir p fs = inl e → is_OSError e = true.
Proof.
  unfold os_mkdir, create_error.
  destruct (lstat fs (parent p)) as [[| |]|];
    [destruct (lstat fs p); [|case_decide]|..]; by intros [= <-].
Qed.

Lemma path_mkdir_go_OSError fuel : ∀ parents exist_ok p fs fs' e,
  path_mkdir_go fuel parents exist_ok p fs = (fs', inl e) → is_OSError e = true.
Proof.
  induction fuel as [|fuel IH]; intros pa eo p fs fs' e H;
    destruct (os_mkdir p fs) as [e0|fs1] eqn:E;
    try (by rewrite (go_inr _ _ _ _ _ _ E) in H);
    pose proof (os_mkdir_OSError _ _ _ E) as Hos;
    destruct (decide (exn_cls e0 = FileNotFoundError)) as [Hc|Hc];
    try (rewrite (go_other _ _ _ _ _ _ E Hc) in H; by case_match; simplify_eq).
  - rewrite (go_missing_spent _ _ _ _ _ E Hc) in H. by simplify_eq.
  - destruct (negb pa || bool_decide (parent p = p)) eqn:Hs.
    { rewrite (go_missing_stop _ _ _ _ _ _ E Hc Hs) in H. by simplify_eq. }
    rewrite (go_missing_rec _ _ _ _ _ _ E Hc Hs) in H.
    destruct (path_mkdir_go fuel true true (parent p) fs) as [fsa [e1|[]]] eqn:E1.
    + simplify_eq. by eapply IH.
    + by eapply IH.
Qed.


(** What is more, such an error is an [OSError] and the state it leaves is
    the one after the failed [mkdir]. *)
Theorem ensure_git_excludes_raise_state (G : git_layer) (P : platform)
    (repo_path : path) (st st' : state) (e : exn) :
  ensure_git_excludes G P repo_path st = (st', Raise e) →
  is_OSError e = true
  ∧ st_fs st' = (path_mkdir true true (parent (exclude_file repo_path)) (st_fs st)).1
  ∧ st_trace st' = st_trace st ++ [EvMkdir (parent (exclude_file repo_path))].
Proof.
  destruct (ensure_git_excludes_run G P repo_path st) as [t H]. rewrite H. clear H.
  destruct (is_repository G (st_fs st) repo_path); [|done].
  destruct (path_mkdir true true _ (st_fs st)) as [fs1 [e1|[]]] eqn:Hmk; [|done].
  intros [= <- <-]. split_and!; try done.
  unfold path_mkdir in Hmk. by eapply path_mkdir_go_OSError.
Qed.

Lemma ensure_git_excludes_raise_state_witness :
  ∃ st', ensure_git_excludes Sim.git Sim.host ["workspace"; "demo"] Sim.st_info_file
         = (st', Raise (os_error FileExistsError ["workspace"; "demo"; ".git"; "info"]))
       ∧ st_fs st' = st_fs Sim.st_info_file.
Proof.
  destruct (ensure_git_excludes Sim.git Sim.host ["workspace"; "demo"] Sim.st_info_file)
    as [st' [[]|e]] eqn:E.
  - assert (Hc : (ensure_git_excludes Sim.git Sim.host ["workspace"; "demo"]
                    Sim.st_info_file).2 ≠ Ok tt) by (vm_compute; discriminate).
    rewrite E in Hc. by destruct Hc.
  - exists st'.
    assert (He : (ensure_git_excludes Sim.git Sim.host ["workspace"; "demo"]
                    Sim.st_info_file).2
                 = Raise (os_error FileExistsError ["workspace"; "demo"; ".git"; "info"]))
      by (vm_compute; reflexivity).
    rewrite E in He. injection He as ->. split; [reflexivity|].
    destruct (ensure_git_excludes_raise_state _ _ _ _ _ _ E) as (_ & Hfs & _).
    rewrite Hfs. vm_compute. reflexivity.
Defined.

(** ** The candidate patterns *)








Example extra_patterns_demo :
  extra_patterns ("  *.log , ,tmp/" +:+ LF +:+ LF +:+ " .cache/ ,")
  = ["*.log"; "tmp/"; ".cache/"].
Proof. reflexivity. Qed.

(** ** What the derived directory depends on *)

Section DeriveFacts.

Lemma before_app_sep c s t : Py.before c (s +:+ String c t) = Py.before c s.
Proof.
  induction s as [|a s IH].
  - rewrite app_empty. simpl. by rewrite decide_True.
  - rewrite app_cons. simpl. case_decide; [done|]. by rewrite IH.
Qed.

Lemma before_without c s : Py.has_char c s = false → Py.before c s = s.
Proof.
  induction s as [|a s IH]; [done|]. simpl. intros [Ha Hs]%orb_false_iff.
  apply bool_decide_eq_false in Ha. rewrite decide_False by done. by rewrite IH.
Qed.

Lemma before_app_without c s t :
  Py.has_char c s = false → Py.before c (s +:+ t) = s +:+ Py.before c t.
Proof.
  induction s as [|a s IH]; [done|]. simpl. intros [Ha Hs]%orb_false_iff.
  apply bool_decide_eq_false in Ha. rewrite !app_cons. simpl.
  rewrite decide_False by done. by rewrite IH.
Qed.

Lemma before_app_with c s t :
  Py.has_char c s = true → Py.before c (s +:+ t) = Py.before c s.
Proof.
  induction s as [|a s IH]; [done|]. rewrite app_cons. simpl.
  case_decide as Ha; [done|].
  rewrite bool_decide_eq_false_2 by done. simpl. intros H. by rewrite IH.
Qed.

Lemma rstrip_char_snoc c s :
  Py.rstrip_char c (s +:+ String c EmptyString) = Py.rstrip_char c s.
Proof.
  induction s as [|a s IH].
  - rewrite app_empty. simpl. by rewrite !decide_True.
  - rewrite app_cons. simpl. by rewrite IH.
Qed.

Lemma rstrip_char_without c seg :
  Py.has_char c seg = false → Py.rstrip_char c seg = seg.
Proof.
  induction seg as [|a seg IH]; [done|]. simpl. intros [Ha Hs]%orb_false_iff.
  apply bool_decide_eq_false in Ha. rewrite decide_False by done. by rewrite IH.
Qed.

Lemma rstrip_char_tail c s t :
  t ≠ EmptyString → Py.rstrip_char c t = t →
  Py.rstrip_char c (s +:+ t) = s +:+ t.
Proof.
  intros Hne Ht. induction s as [|a s IH].
  - by rewrite app_empty.
  - rewrite app_cons. simpl. rewrite IH.
    assert (s +:+ t ≠ EmptyString) by (destruct s, t; done).
    case_decide; [|done]. by rewrite decide_False.
Qed.

Lemma rstrip_char_keeps c s seg :
  seg ≠ EmptyString → Py.has_char c seg = false →
  Py.rstrip_char c (s +:+ String c seg) = s +:+ String c seg.
Proof.
  intros Hne Hc. apply rstrip_char_tail; [done|].
  simpl. rewrite rstrip_char_without by done.
  rewrite decide_True by done. by rewrite decide_False.
Qed.

Lemma split_last_segment c s seg d :
  Py.has_char c seg = false →
  ∃ h t, Py.split c (s +:+ String c seg) = h :: t ∧ t ≠ []
         ∧ List.last (h :: t) d = seg.
Proof.
  intros Hc. induction s as [|a s IH].
  - rewrite app_empty. simpl. rewrite decide_True by done.
    rewrite split_without_sep by done. by eexists _, _.
  - destruct IH as (h & t & E & Ht & Hl). rewrite app_cons. simpl. rewrite E.
    case_decide.
    + eexists _, _. split_and!; [done|done|]. by destruct t.
    + eexists _, _. split_and!; [done|done|]. by destruct t.
Qed.

End DeriveFacts.

(** The directory [_derive_repo_path] gives depends on the last path segment
    of the URL alone. A query string, a fragment or (on a URL without them)
    a trailing slash changes nothing, and so does everything in front of
    the last slash: repositories with one name from different owners or
    hosts are given the same directory. *)
Theorem derive_repo_name_last_segment :
  (∀ url q, derive_repo_name (url +:+ "?" +:+ q) = derive_repo_name url)
  ∧ (∀ url f, derive_repo_name (url +:+ "#" +:+ f) = derive_repo_name url)
  ∧ (∀ url, Py.has_char "?" url = false → Py.has_char "#" url = false →
       derive_repo_name (url +:+ "/") = derive_repo_name url)
  ∧ (∀ base seg,
       Py.has_char "?" base = false → Py.has_char "#" base = false →
       Py.has_char "?" seg = false → Py.has_char "#" seg = false →
       Py.has_char "/" seg = false → seg ≠ EmptyString →
       derive_repo_name (base +:+ "/" +:+ seg) = derive_repo_name seg).
Proof.
  split_and!.
  - intros url q. unfold derive_repo_name.
    change ("?" +:+ q) with (String "?" q). by rewrite before_app_sep.
  - intros url f. unfold derive_repo_name.
    change ("#" +:+ f) with (String "#" f).
    destruct (Py.has_char "?" url) eqn:Hq.
    + by rewrite before_app_with.
    + rewrite before_app_without by done. simpl.
      rewrite (before_without "?" url) by done.
      by rewrite before_app_sep.
  - intros url Hq Hf. unfold derive_repo_name.
    rewrite (before_without "?" (url +:+ "/")), (before_without "#" (url +:+ "/"))
      by (rewrite has_char_app; simpl; by rewrite ?Hq, ?Hf).
    rewrite !(before_without "?" url), !(before_without "#" url) by done.
    by rewrite rstrip_char_snoc.
  - intros base seg Hbq Hbf Hsq Hsf Hss Hne. unfold derive_repo_name.
    change ("/" +:+ seg) with (String "/" seg).
    rewrite (before_without "?" (base +:+ String "/" seg)),
      (before_without "#" (base +:+ String "/" seg))
      by (rewrite has_char_app; simpl; by rewrite ?Hbq, ?Hbf, ?Hsq, ?Hsf).
    rewrite (before_without "?" seg), (before_without "#" seg) by done.
    rewrite rstrip_char_keeps, rstrip_char_without by done.
    destruct (split_last_segment "/" base seg EmptyString Hss)
      as (h & t & E & _ & Hl).
    rewrite E, Hl, split_without_sep by done. simpl.
    rewrite (bool_decide_eq_false_2 (base +:+ String "/" seg = EmptyString))
      by (by destruct base).
    by rewrite (bool_decide_eq_false_2 (seg = EmptyString)) by done.
Qed.

Lemma derive_repo_name_last_segment_witness :
  derive_repo_name ("https://github.com/acme" +:+ "/" +:+ "demo.git")
  = derive_repo_name "demo.git"
  ∧ derive_repo_name ("https://example.org/team/demo" +:+ "/")
    = derive_repo_name "https://example.org/team/demo".
Proof.
  destruct derive_repo_name_last_segment as (_ & _ & H3 & H4).
  split.
  - apply H4; [vm_compute; reflexivity..|discriminate].
  - apply H3; vm_compute; reflexivity.
Defined.

(** ** The persistence link, once made *)

Lemma path_mkdir_flat exist_ok p fs fs' r :
  path_mkdir false exist_ok p fs = (fs', r) →
  fs' = fs ∨ os_mkdir p fs = inr fs'.
Proof.
  unfold path_mkdir.
  destruct (length p); simpl; destruct (os_mkdir p fs) as [e0|fs1];
    repeat case_match; intros [= <- <-]; auto.
Qed.

Lemma lstat_os_mkdir_ne p fs fs' q :
  os_mkdir p fs = inr fs' → q ≠ p → lstat fs' q = lstat fs q.
Proof.
  intros (_ & _ & _ & ->)%os_mkdir_inr Hq.
  destruct q; [done|]. simpl. by rewrite lookup_insert_ne.
Qed.

Lemma lstat_rmtree p fs fs' q :
  shutil_rmtree p fs = inr fs' →
  lstat fs p = Some Dir ∧ fs_readonly fs' = fs_readonly fs
  ∧ (q ≠ [] → p `prefix_of` q → lstat fs' q = None)
  ∧ (¬ p `prefix_of` q → lstat fs' q = lstat fs q).
Proof.
  unfold shutil_rmtree. destruct (lstat fs p) as [[| |]|] eqn:E; try done.
  destruct (bool_decide _ || _); [done|]. intros [= <-].
  split_and!; [done|done|..].
  - intros Hq Hp. destruct q; [done|]. simpl.
    apply map_lookup_filter_None. right. intros x _. simpl. tauto.
  - intros Hp. destruct q; [done|]. simpl.
    match goal with |- _ = ?r => destruct r as [n|] eqn:En end.
    + by apply map_lookup_filter_Some.
    + apply map_lookup_filter_None. by left.
Qed.

Lemma path_symlink_to_inr p t fs fs' :
  path_symlink_to p t fs = inr fs' →
  fs' = set_node p (Symlink t) fs ∧ p ≠ [] ∧ lstat fs p = None
  ∧ lstat fs (parent p) = Some Dir ∧ parent p ∉ fs_readonly fs.
Proof.
  unfold path_symlink_to. destruct (create_error fs p) eqn:E; [done|].
  intros [= <-]. apply create_error_None in E as (H1 & H2 & H3).
  split_and!; try done. by intros ->.
Qed.

(** What a returning [_setup_session_persistence] leaves behind. *)
Lemma setup_session_persistence_post (self : manager) (st st' : state) :
  let home := system_claude_home self in
  let persist := persistent_claude_data self in
  setup_session_persistence self st = (st', Ok tt) →
  lstat (st_fs st') home = Some (Symlink persist)
  ∧ lstat (st_fs st') (parent home) = Some Dir
  ∧ (parent home ∉ fs_readonly (st_fs st'))
  ∧ (∀ q, ¬ home `prefix_of` q →
       lstat (st_fs st') q = lstat (st_fs st) q
       ∨ (q = persist ∧ lstat (st_fs st) q = None ∧ lstat (st_fs st') q = Some Dir))
  ∧ (lstat (st_fs st) home = Some Dir →
       ∀ q, home `prefix_of` q → q ≠ home → lstat (st_fs st') q = None)
  ∧ st_askpass st' = st_askpass st ∧ st_work_path st' = st_work_path st.
Proof.
  intros home persist. destruct st as [fs wp ap tr].
  unfold setup_session_persistence. fold home persist. mrun.
  destruct (path_mkdir false true persist fs) as [fs1 [e|[]]] eqn:E1; [done|].
  simpl.
  assert (Hmk : ∀ q, lstat fs1 q = lstat fs q
                     ∨ (q = persist ∧ lstat fs q = None ∧ lstat fs1 q = Some Dir)).
  { intros q. destruct (path_mkdir_flat _ _ _ _ _ E1) as [->|Hos]; [by left|].
    destruct (decide (q = persist)) as [->|Hq].
    - right. destruct (os_mkdir_grows _ _ _ Hos persist) as [Heq|[? ?]]; [|done].
      apply os_mkdir_inr in Hos as (Hn & Hp & _ & ->).
      rewrite Hn in Heq |- *. split_and!; try done.
      destruct persist; [done|]. simpl. by rewrite lookup_insert_eq.
    - left. by eapply lstat_os_mkdir_ne. }
  assert (Hhome_dir : lstat fs home = Some Dir → lstat fs1 home = Some Dir).
  { intros Hd. destruct (Hmk home) as [->|(_ & ? & _)]; congruence. }
  destruct (path_exists fs1 home || path_is_symlink fs1 home) eqn:Hp; simpl.
  - destruct (path_is_symlink fs1 home) eqn:Hl; simpl.
    + destruct (path_unlink false home fs1) as [e|fs2] eqn:E2; simpl; [done|].
      destruct (path_symlink_to home persist fs2) as [e|fs3] eqn:E3; simpl; [done|].
      intros [= <-]. simpl.
      apply path_symlink_to_inr in E3 as (-> & Hne & Hn2 & Hpar & Hrd).
      assert (Hfs2 : fs2 = remove_node home fs1).
      { destruct (path_unlink_cases false home fs1)
          as [(E & _)|[(_ & _ & ?)|(e & E & _)]]; congruence. }
      subst fs2. split_and!; try done.
      * by apply lstat_set_node_eq.
      * rewrite lstat_set_node_ne by (by apply not_eq_sym, parent_not_self). done.
      * intros q Hq. rewrite lstat_set_node_ne, lstat_remove_node_ne
          by (intros ->; by apply Hq). apply Hmk.
      * intros Hd. unfold path_is_symlink in Hl. by rewrite (Hhome_dir Hd) in Hl.
    + destruct (shutil_rmtree home fs1) as [e|fs2] eqn:E2; simpl; [done|].
      destruct (path_symlink_to home persist fs2) as [e|fs3] eqn:E3; simpl; [done|].
      intros [= <-]. simpl.
      apply path_symlink_to_inr in E3 as (-> & Hne & Hn2 & Hpar & Hrd).
      split_and!; try done.
      * by apply lstat_set_node_eq.
      * rewrite lstat_set_node_ne by (by apply not_eq_sym, parent_not_self). done.
      * intros q Hq. rewrite lstat_set_node_ne by (intros ->; by apply Hq).
        destruct (lstat_rmtree home fs1 fs2 q E2) as (_ & _ & _ & H).
        rewrite H by done. apply Hmk.
      * intros _ q Hq Hqh. rewrite lstat_set_node_ne by done.
        destruct (lstat_rmtree home fs1 fs2 q E2) as (_ & _ & H & _).
        apply H; [|done]. intros ->. apply prefix_nil_inv in Hq. done.
  - destruct (path_symlink_to home persist fs1) as [e|fs3] eqn:E3; simpl; [done|].
    intros [= <-]. simpl.
    apply path_symlink_to_inr in E3 as (-> & Hne & Hn2 & Hpar & Hrd).
    split_and!; try done.
    + by apply lstat_set_node_eq.
    + rewrite lstat_set_node_ne by (by apply not_eq_sym, parent_not_self). done.
    + intros q Hq. rewrite lstat_set_node_ne by (intros ->; by apply Hq). apply Hmk.
    + intros Hd. rewrite (Hhome_dir Hd) in Hn2. done.
Qed.

(** Whenever [_setup_session_persistence] returns, [system_claude_home] is
    the link to [persistent_claude_data], in a directory the process may
    modify. Outside [system_claude_home] nothing has changed but for the
    data directory, which may have been created; where a directory stood
    at [system_claude_home], all that was below it is gone. *)
Theorem setup_session_persistence_links (self : manager) (st st' : state) :
  let home := system_claude_home self in
  let persist := persistent_claude_data self in
  setup_session_persistence self st = (st', Ok tt) →
  lstat (st_fs st') home = Some (Symlink persist)
  ∧ lstat (st_fs st') (parent home) = Some Dir
  ∧ (parent home ∉ fs_readonly (st_fs st'))
  ∧ (∀ q, ¬ home `prefix_of` q →
       lstat (st_fs st') q = lstat (st_fs st) q
       ∨ (q = persist ∧ lstat (st_fs st) q = None ∧ lstat (st_fs st') q = Some Dir))
  ∧ (lstat (st_fs st) home = Some Dir →
       ∀ q, home `prefix_of` q → q ≠ home → lstat (st_fs st') q = None)
  ∧ st_askpass st' = st_askpass st ∧ st_work_path st' = st_work_path st.
Proof. apply setup_session_persistence_post. Qed.

Definition st_home_dir : state :=
  State (FileSys (<[ ["root"; ".claude"; "settings.json"] := File "{}" 420 ]>
                    (<[ ["root"; ".claude"] := Dir ]> (fs_nodes Sim.fs0))) ∅)
        ["workspace"] None [].

Lemma setup_session_persistence_links_witness :
  ∃ st', setup_session_persistence Sim.self st_home_dir = (st', Ok tt)
       ∧ lstat (st_fs st') ["root"; ".claude"] = Some (Symlink ["workspace"; ".claude_data"])
       ∧ lstat (st_fs st') ["root"; ".claude"; "settings.json"] = None
       ∧ lstat (st_fs st') ["workspace"] = lstat (st_fs st_home_dir) ["workspace"].
Proof.
  assert (E : setup_session_persistence Sim.self st_home_dir
              = ((setup_session_persistence Sim.self st_home_dir).1, Ok tt))
    by (vm_compute; reflexivity).
  destruct (setup_session_persistence_links Sim.self st_home_dir _ E)
    as (H1 & _ & _ & H4 & H5 & _).
  eexists. split_and!; [exact E|exact H1|..].
  - apply H5; [vm_compute; reflexivity| |discriminate].
    exists ["settings.json"]. reflexivity.
  - destruct (H4 ["workspace"]) as [H|(H & _)]; [|exact H|discriminate H].
    intros [k Hk]. discriminate Hk.
Defined.

(** [cleanup] on a state where [system_claude_home] is a link the process
    may remove. *)
Lemma cleanup_unlinks self st t :
  let home := system_claude_home self in
  lstat (st_fs st) home = Some (Symlink t) →
  parent home ∉ fs_readonly (st_fs st) →
  ∃ st2,
    cleanup self st = (st2, Ok tt)
    ∧ lstat (st_fs st2) home = None
    ∧ (∀ q, lstat (st_fs st) q = None → lstat (st_fs st2) q = None)
    ∧ (∀ q, q ≠ home → st_askpass st ≠ Some q →
         lstat (st_fs st2) q = lstat (st_fs st) q).
Proof.
  intros home Hl Hro. destruct st as [fs wp ap tr]. simpl in *.
  assert (Hne : home ≠ []) by (intros E; rewrite E in Hl; done).
  assert (Hun : path_unlink false home fs = inr (remove_node home fs)).
  { unfold path_unlink. rewrite Hl. by rewrite decide_False. }
  assert (Hrun :
    ((let! link := query (λ fs, path_is_symlink fs home) in
      if link then unlink false home else ret tt) (State fs wp ap tr))
    = (State (remove_node home fs) wp ap (tr ++ [EvUnlink home]), Ok tt)).
  { mrun. unfold path_is_symlink. rewrite Hl. simpl. by rewrite Hun. }
  assert (Hc : cleanup self (State fs wp ap tr) =
    ((let! link := query (λ fs, path_is_symlink fs home) in
      if link then unlink false home else ret tt) >>
     let! askpass := get_askpass in
     match askpass with
     | Some p => try_except (unlink true p) is_Exception (λ _, ret tt) >> set_askpass None
     | None => ret tt
     end) (State fs wp ap tr)).
  { unfold cleanup. symmetry. apply bind_assoc. }
  rewrite Hc, (bind_ok _ _ _ _ _ Hrun).
  unfold bind at 1. unfold get_askpass at 1. simpl.
  assert (Hrem : ∀ p q, lstat (remove_node p fs) q = None
                        ∨ lstat (remove_node p fs) q = lstat fs q).
  { intros p q. destruct (decide (p = q)) as [<-|Hpq].
    - destruct p; [by right|]. left. by apply lstat_remove_node_eq.
    - right. by apply lstat_remove_node_ne. }
  destruct ap as [p|].
  - destruct (cleanup_askpass_part (remove_node home fs) wp p (tr ++ [EvUnlink home]))
      as (fs2 & -> & Hfs2 & _).
    eexists. split_and!; [done|..]; simpl.
    + destruct Hfs2 as [->|[-> Hp]]; [by apply lstat_remove_node_eq|].
      destruct (decide (p = home)) as [->|Hph]; [by apply lstat_remove_node_eq|].
      rewrite lstat_remove_node_ne by done. by apply lstat_remove_node_eq.
    + intros q Hq.
      assert (lstat (remove_node home fs) q = None) as Hq1.
      { destruct (decide (home = q)) as [<-|Hhq]; [by apply lstat_remove_node_eq|].
        by rewrite lstat_remove_node_ne. }
      destruct Hfs2 as [->|[-> Hp]]; [done|].
      destruct (decide (p = q)) as [<-|Hpq]; [by apply lstat_remove_node_eq|].
      by rewrite lstat_remove_node_ne.
    + intros q Hq Hap.
      rewrite <- (lstat_remove_node_ne home q fs) by done.
      destruct Hfs2 as [->|[-> Hp]]; [done|].
      apply lstat_remove_node_ne. congruence.
  - unfold ret. eexists. split_and!; [done|..]; simpl.
    + by apply lstat_remove_node_eq.
    + intros q Hq.
      destruct (decide (home = q)) as [<-|Hhq]; [by apply lstat_remove_node_eq|].
      by rewrite lstat_remove_node_ne.
    + intros q Hq _. by apply lstat_remove_node_ne.
Qed.

(** [cleanup] after [_setup_session_persistence] takes the link away and
    returns, but it does not bring back what the link replaced: where a
    directory stood at [system_claude_home], neither it nor anything that
    was below it is there afterwards. Outside that path every entry but the
    askpass script is as it was before the set-up, the data directory being
    the one entry that may be new. *)
Theorem cleanup_after_setup (self : manager) (st st1 : state) :
  let home := system_claude_home self in
  let persist := persistent_claude_data self in
  setup_session_persistence self st = (st1, Ok tt) →
  ∃ st2,
    cleanup self st1 = (st2, Ok tt)
    ∧ lstat (st_fs st2) home = None
    ∧ (lstat (st_fs st) home = Some Dir →
         ∀ q, home `prefix_of` q → lstat (st_fs st2) q = None)
    ∧ (∀ q, ¬ home `prefix_of` q → st_askpass st ≠ Some q →
         lstat (st_fs st2) q = lstat (st_fs st) q
         ∨ (q = persist ∧ lstat (st_fs st) q = None
            ∧ lstat (st_fs st2) q = Some Dir)).
Proof.
  intros home persist Hset.
  destruct (setup_session_persistence_post self st st1 Hset)
    as (Hlink & _ & Hro & Hout & Hbelow & Hap & _).
  destruct (cleanup_unlinks self st1 persist Hlink Hro)
    as (st2 & Hrun & Hgone & Hnone & Hsame).
  exists st2. split_and!; [done|done|..].
  - intros Hd q Hq. destruct (decide (q = home)) as [->|Hqh]; [done|].
    apply Hnone. by apply Hbelow.
  - intros q Hq Hask.
    assert (q ≠ home) as Hqh by (intros ->; by apply Hq).
    rewrite Hsame by (by rewrite ?Hap). by apply Hout.
Qed.

Lemma cleanup_after_setup_witness :
  ∃ st1 st2,
    setup_session_persistence Sim.self st_home_dir = (st1, Ok tt)
    ∧ cleanup Sim.self st1 = (st2, Ok tt)
    ∧ lstat (st_fs st2) ["root"; ".claude"] = None
    ∧ lstat (st_fs st2) ["root"; ".claude"; "settings.json"] = None.
Proof.
  assert (E : setup_session_persistence Sim.self st_home_dir
              = ((setup_session_persistence Sim.self st_home_dir).1, Ok tt))
    by (vm_compute; reflexivity).
  destruct (cleanup_after_setup Sim.self st_home_dir _ E) as (st2 & H1 & H2 & H3 & _).
  eexists _, st2. split_and!; [exact E|exact H1|exact H2|].
  apply H3; [vm_compute; reflexivity|]. exists ["settings.json"]. reflexivity.
Defined.

(** ** What the exclude file holds afterwards *)








(** ** When the inputs link is made *)

Lemma path_exists_absent fs p : lstat fs p = None → path_exists fs p = false.
Proof.
  intros Hn. unfold path_exists, stat.
  rewrite resolve_not_link by (by rewrite Hn). rewrite Hn.
  apply bool_decide_eq_false_2. by intros [? ?].
Qed.

(** For a repository below the root, once the inputs root is in place:
    where nothing stands at [repo_path/inputs] in a directory the process
    may modify, [_ensure_inputs_dir] makes the link to the inputs root and
    logs nothing; where a link stands there that leads nowhere, the method
    tries to make the link all the same, fails on the entry present, logs
    the failure and leaves the dangling link as it is. *)
Theorem ensure_inputs_dir_links (self : manager) (repo_path : path) (st : state)
    (fs1 : filesys) :
  let link := path_join repo_path "inputs" in
  let made := [EvMkdir (inputs_root self); EvSymlink link (inputs_root self)] in
  path_mkdir true true (inputs_root self) (st_fs st) = (fs1, inr tt) →
  repo_path ≠ root_path self →
  lstat fs1 (parent link) = Some Dir →
  ∃ st',
    ensure_inputs_dir self repo_path st = (st', Ok tt)
    ∧ (lstat fs1 link = None → parent link ∉ fs_readonly fs1 →
         st_fs st' = set_node link (Symlink (inputs_root self)) fs1
         ∧ st_trace st' = st_trace st ++ made)
    ∧ (∀ t, lstat fs1 link = Some (Symlink t) → path_exists fs1 link = false →
         st_fs st' = fs1
         ∧ st_trace st' = st_trace st ++ made ++
             [EvWarning ("Failed to link inputs directory " +:+ path_str link +:+ ": "
                         +:+ exn_msg (os_error FileExistsError link))]).
Proof.
  intros link made Hmk Hroot Hpar. destruct st as [fs wp ap tr]. simpl in Hmk.
  unfold ensure_inputs_dir. fold link. mrun. rewrite Hmk. simpl.
  rewrite bool_decide_eq_false_2 by done.
  cbn [st_fs st_work_path st_askpass st_trace].
  destruct (path_exists fs1 link) eqn:Hex; simpl.
  - eexists. split_and!; [done|..].
    + intros Hn. by rewrite (path_exists_absent _ _ Hn) in Hex.
    + intros t _ Hf. by rewrite Hf in Hex.
  - unfold path_symlink_to, create_error. rewrite Hpar.
    destruct (lstat fs1 link) as [n|] eqn:Hl; simpl.
    + eexists. split_and!; [done|done|]; simpl.
      intros t _ _. split; [done|]. unfold made. by rewrite <- !app_assoc.
    + case_decide as Hro; simpl.
      * eexists. split_and!; [done| |done]. by intros _ ?.
      * eexists. split_and!; [done| |done]; simpl.
        intros _ _. split; [done|]. unfold made. by rewrite <- !app_assoc.
Qed.

Lemma ensure_inputs_dir_links_witness :
  ∃ st',
    ensure_inputs_dir Sim.self ["workspace"; "demo"] Sim.st_cloned = (st', Ok tt)
    ∧ lstat (st_fs st') ["workspace"; "demo"; "inputs"]
      = Some (Symlink ["workspace"; "inputs"]).
Proof.
  destruct (ensure_inputs_dir_links Sim.self ["workspace"; "demo"] Sim.st_cloned
              (path_mkdir true true ["workspace"; "inputs"] (st_fs Sim.st_cloned)).1)
    as (st' & H1 & H2 & _).
  - vm_compute. reflexivity.
  - discriminate.
  - vm_compute. reflexivity.
  - exists st'. split; [exact H1|].
    destruct H2 as [Hfs _].
    + vm_compute. reflexivity.
    + assert (E : fs_readonly
                    (path_mkdir true true ["workspace"; "inputs"] (st_fs Sim.st_cloned)).1
                  = ∅ ∖ {[ ["workspace"; "inputs"] ]}) by (vm_compute; reflexivity).
      rewrite E. apply not_elem_of_difference. left. apply not_elem_of_empty.
    + rewrite Hfs. apply lstat_set_node_eq. discriminate.
Defined.

(** ** The work path [prepare] leaves *)

Lemma bind_ok_inv {A B} (m : M A) (k : A → M B) st st' b :
  bind m k st = (st', Ok b) → ∃ st1 a, m st = (st1, Ok a) ∧ k a st1 = (st', Ok b).
Proof. unfold bind. destruct (m st) as [st1 [a|e]]; [eauto|done]. Qed.

Lemma ensure_inputs_dir_keeps self repo_path st :
  st_work_path (ensure_inputs_dir self repo_path st).1 = st_work_path st.
Proof.
  unfold ensure_inputs_dir. mrun.
  destruct (path_mkdir true true (inputs_root self) (st_fs st)) as [fs1 [e|[]]]; simpl;
    [done|].
  case_bool_decide; [done|]. simpl.
  destruct (path_exists fs1 _); [done|]. simpl.
  by destruct (path_symlink_to _ _ fs1).
Qed.

Lemma ensure_git_excludes_keeps G P repo_path st :
  st_work_path (ensure_git_excludes G P repo_path st).1 = st_work_path st.
Proof.
  destruct (ensure_git_excludes_run G P repo_path st) as [t ->].
  destruct (is_repository G (st_fs st) repo_path); [|done].
  by destruct (path_mkdir _ _ _ _) as [fs1 [e|[]]].
Qed.

(** The path a returning [_prepare_repository] gives: the root without a
    URL; with one, the derived directory where a repository stood there,
    and otherwise what [clone] returned for the derived directory. *)
Lemma prepare_repository_value G P self config st st2 wp :
  let url := or_empty_strip (repo_url config) in
  let repo_path := derive_repo_path (root_path self) url in
  prepare_repository G P self config st = (st2, Ok wp) →
  if bool_decide (url = EmptyString) then wp = root_path self
  else wp = repo_path
       ∨ ∃ env fs, (clone G url repo_path (git_branch config) env fs).2 = inr wp.
Proof.
  intros url repo_path. case_bool_decide as Hurl.
  - unfold prepare_repository. fold url. rewrite bool_decide_eq_true_2 by done. simpl.
    intros (s & [] & _ & [= _ <-])%bind_ok_inv. done.
  - rewrite prepare_repository_with_url by done. fold url.
    match goal with
    | |- context [ensure_cloned_repo G P self url _ ?tok st] =>
        destruct (build_git_env P url tok st) as [st1 [env|e]] eqn:Henv
    end.
    + rewrite (ensure_cloned_repo_after_env _ _ _ _ _ _ _ _ _ Henv). fold repo_path.
      destruct (path_exists (st_fs st1) repo_path && is_repository G (st_fs st1) repo_path).
      { intros (s & [] & _ & [= _ <-])%bind_ok_inv. by left. }
      destruct (path_exists (st_fs st1) repo_path
                && negb (is_repository G (st_fs st1) repo_path)); [done|].
      unfold try_except, raise. rewrite call_clone_run. simpl.
      destruct (clone G url repo_path (git_branch config) env (st_fs st1))
        as [fs2 [e|q]] eqn:Ec; simpl.
      * by destruct (is_git_or_os_error e).
      * intros [= _ <-]. right. exists env, (st_fs st1). by rewrite Ec.
    + unfold ensure_cloned_repo. by rewrite (bind_raise _ _ _ _ _ Henv).
Qed.

(** When [prepare] returns, the manager's work path is the root if the
    configuration names no repository. If it names one, the work path is
    the directory derived from the URL, an entry directly below the root,
    or else the path [clone] returned when asked to clone into that
    directory. *)
Theorem prepare_work_path (G : git_layer) (P : platform) (self : manager)
    (config : TaskConfig) (st st' : state) :
  let url := or_empty_strip (repo_url config) in
  let repo_path := derive_repo_path (root_path self) url in
  prepare G P self config st = (st', Ok tt) →
  (url = EmptyString → st_work_path st' = root_path self)
  ∧ (url ≠ EmptyString →
       strict_child (root_path self) repo_path
       ∧ (st_work_path st' = repo_path
          ∨ ∃ env fs,
              (clone G url repo_path (git_branch config) env fs).2
              = inr (st_work_path st'))).
Proof.
  intros url repo_path. rewrite prepare_unfold.
  intros (s0 & [] & _ & H)%bind_ok_inv.
  apply bind_ok_inv in H as (s1 & [] & _ & H).
  apply bind_ok_inv in H as (s2 & wp & Hrepo & H).
  apply bind_ok_inv in H as (s2' & [] & Hset & H).
  apply bind_ok_inv in H as (s3 & [] & Hin & Hex).
  assert (Hwp : st_work_path st' = wp).
  { pose proof (ensure_git_excludes_keeps G P wp s3) as H3. rewrite Hex in H3.
    pose proof (ensure_inputs_dir_keeps self wp s2') as H2. rewrite Hin in H2.
    simpl in H2, H3. rewrite H3, H2. by injection Hset as <-. }
  rewrite Hwp. apply prepare_repository_value in Hrepo. fold url repo_path in Hrepo.
  split.
  - intros E. by rewrite bool_decide_eq_true_2 in Hrepo.
  - intros E. rewrite bool_decide_eq_false_2 in Hrepo by done. split; [|done].
    exists (derive_repo_name url). split; [|apply derive_repo_name_child].
    unfold repo_path, derive_repo_path. apply path_join_child, derive_repo_name_child.
Qed.

Lemma prepare_work_path_witness :
  ∃ st', prepare Sim.git Sim.host Sim.self (Build_TaskConfig (Some "  ") None None) Sim.st0
         = (st', Ok tt)
       ∧ st_work_path st' = ["workspace"].
Proof.
  assert (E : prepare Sim.git Sim.host Sim.self (Build_TaskConfig (Some "  ") None None) Sim.st0
              = ((prepare Sim.git Sim.host Sim.self (Build_TaskConfig (Some "  ") None None)
                    Sim.st0).1, Ok tt)) by (vm_compute; reflexivity).
  destruct (prepare_work_path Sim.git Sim.host Sim.self (Build_TaskConfig (Some "  ") None None)
              Sim.st0 _ E) as [H _].
  eexists. split; [exact E|]. apply H. reflexivity.
Defined.
